(** * Ubuntu Image Fetcher (index.py): a shallow embedding and its properties

    The program reads one URL, issues one GET, derives a file name from the
    URL or the content type, and writes the body under [Fetched_Images/].
    Python strings are modelled as lists of Unicode code points, the pure
    helpers as functions on them, and [main] as a computation in a small
    state-and-exception monad over the console, standard output, the
    network answer and the set of existing paths. *)

From Stdlib Require Import ZArith NArith Ascii String DecimalNat.
From stdpp Require Import base decidable list gmap.

Local Open Scope Z_scope.

(** ** Strings *)

(** A Python [str] is a sequence of code points. *)
Abbreviation char := N (only parsing).
Abbreviation str := (list N) (only parsing).

(** ASCII literals. *)
Definition lit (s : String.string) : str :=
  List.map Byte.to_N (list_byte_of_string s).

Definition len (s : str) : Z := Z.of_nat (length s).

Definition str_eqb (a b : str) : bool := bool_decide (a = b).

(** [x in s] for a one-character [x]. *)
Definition contains (c : char) (s : str) : bool := bool_decide (c ∈ s).

(** [s.startswith(p)] *)
Fixpoint startswith (s p : str) {struct p} : bool :=
  match p, s with
  | [], _ => true
  | _ :: _, [] => false
  | a :: p', b :: s' => (b =? a)%N && startswith s' p'
  end.

(** Index normalisation of a slice bound: negative bounds count from the
    end, and every bound is clamped to [0, len]. *)
Definition slice_bound (s : str) (k : Z) : nat :=
  Z.to_nat (if k <? 0 then Z.max 0 (len s + k) else Z.min k (len s)).

(** [s[:k]] and [s[k:]] *)
Definition slice_to (s : str) (k : Z) : str := take (slice_bound s k) s.
Definition slice_from (s : str) (k : Z) : str := drop (slice_bound s k) s.

(** [s.rfind(c)] for a one-character [c]: the highest index holding [c],
    or -1. *)
Fixpoint rfind_from (c : char) (s : str) (i acc : Z) : Z :=
  match s with
  | [] => acc
  | x :: t => rfind_from c t (i + 1) (if (x =? c)%N then i else acc)
  end.

Definition rfind (s : str) (c : char) : Z := rfind_from c s 0 (-1).

(** [s.replace(old, new)] for one-character [old] and [new]. *)
Definition replace (s : str) (old new : char) : str :=
  List.map (fun c => if (c =? old)%N then new else c) s.

(** [str.isspace] of one code point. *)
Definition isspace (c : char) : bool :=
  ((9 <=? c) && (c <=? 13) || (28 <=? c) && (c <=? 32) || (c =? 133)
   || (c =? 160) || (c =? 5760) || (8192 <=? c) && (c <=? 8202)
   || (c =? 8232) || (c =? 8233) || (c =? 8239) || (c =? 8287)
   || (c =? 12288))%N.

Fixpoint lstrip (s : str) : str :=
  match s with
  | c :: t => if isspace c then lstrip t else s
  | [] => []
  end.

(** [s.strip()] *)
Definition strip (s : str) : str := rev (lstrip (rev (lstrip s))).

(** [str.lower] of one code point. Exact on U+0000..U+00FF (ASCII and the
    Latin-1 supplement), which is the range of every header value: the HTTP
    client decodes header lines as ISO-8859-1. Above U+00FF the code point
    is left as it is; no code point there lowers to the single letter [y],
    so the comparison of a console answer with ['y'] is exact as well. *)
Definition lower_char (c : char) : char :=
  (if (65 <=? c) && (c <=? 90) then c + 32
   else if (192 <=? c) && (c <=? 222) && negb (c =? 215) then c + 32
   else c)%N.

Definition lower (s : str) : str := List.map lower_char s.

(** [str(n)] for a natural number: its decimal digits. *)
Fixpoint uint_digits (d : Decimal.uint) : str :=
  match d with
  | Decimal.Nil => []
  | Decimal.D0 d => 48%N :: uint_digits d
  | Decimal.D1 d => 49%N :: uint_digits d
  | Decimal.D2 d => 50%N :: uint_digits d
  | Decimal.D3 d => 51%N :: uint_digits d
  | Decimal.D4 d => 52%N :: uint_digits d
  | Decimal.D5 d => 53%N :: uint_digits d
  | Decimal.D6 d => 54%N :: uint_digits d
  | Decimal.D7 d => 55%N :: uint_digits d
  | Decimal.D8 d => 56%N :: uint_digits d
  | Decimal.D9 d => 57%N :: uint_digits d
  end.

Definition str_of_nat (n : nat) : str := uint_digits (Nat.to_uint n).

(** [str(z)] for an integer. *)
Definition str_of_int (z : Z) : str :=
  if z <? 0 then 45%N :: str_of_nat (Z.to_nat (- z)) else str_of_nat (Z.to_nat z).

(** [x or d] on an optional string: [None] and the empty string are falsy. *)
Definition py_or (x : option str) (d : str) : str :=
  match x with
  | Some (c :: t) => c :: t
  | _ => d
  end.

(** ** posixpath *)

Definition sep : char := 47%N.
Definition extsep : char := 46%N.

(** The leading-dots loop of [genericpath._splitext]: is there an index in
    [filenameIndex, filenameIndex + fuel) whose character is not a dot? *)
Fixpoint skip_leading_dots (p : str) (fuel : nat) (filenameIndex : nat) : bool :=
  match fuel with
  | O => false
  | S fuel' =>
      if bool_decide (p !! filenameIndex = Some extsep)
      then skip_leading_dots p fuel' (S filenameIndex)
      else true
  end.

(** [os.path.splitext] *)
Definition splitext (p : str) : str * str :=
  let sepIndex := rfind p sep in
  let dotIndex := rfind p extsep in
  if (sepIndex <? dotIndex)
     && skip_leading_dots p (Z.to_nat (dotIndex - (sepIndex + 1)))
          (Z.to_nat (sepIndex + 1))
  then (slice_to p dotIndex, slice_from p dotIndex)
  else (p, slice_to p 0).

(** [os.path.basename] *)
Definition basename (p : str) : str := slice_from p (rfind p sep + 1).

(** [os.path.join] of two components. *)
Definition path_join (a b : str) : str :=
  if startswith b [sep] then b
  else if bool_decide (a = []) || bool_decide (last a = Some sep) then a ++ b
  else a ++ sep :: b.

(** ** get_extension_from_content_type *)

(** The items of the dictionary literal. *)
Definition extension_items : list (str * str) :=
  [ (lit "image/jpeg", lit ".jpg");
    (lit "image/jpg", lit ".jpg");
    (lit "image/png", lit ".png");
    (lit "image/gif", lit ".gif");
    (lit "image/webp", lit ".webp");
    (lit "image/bmp", lit ".bmp");
    (lit "image/svg+xml", lit ".svg");
    (lit "image/tiff", lit ".tiff") ].

Definition extensions : gmap (list N) (list N) := list_to_map extension_items.

Definition get_extension_from_content_type (content_type : str) : option str :=
  extensions !! lower content_type.

(** ** sanitize_filename *)

(** The nine characters of the source's [dangerous_chars], in its order:
    less-than, greater-than, colon, double quote, slash, backslash, bar,
    question mark, star. *)
Definition dangerous_chars : str :=
  [60; 62; 58; 34; 47; 92; 124; 63; 42]%N.

Definition underscore : char := 95%N.

(** The [for char in dangerous_chars] loop. *)
Definition replace_dangerous (filename : str) : str :=
  fold_left (fun filename char => replace filename char underscore)
    dangerous_chars filename.

Definition sanitize_filename (filename : str) : str :=
  let filename := replace_dangerous filename in
  if 255 <? len filename then
    let '(name, ext) := splitext filename in
    slice_to name (255 - len ext) ++ ext
  else filename.

(** ** The world of one run *)

Abbreviation bytes := (list Byte.byte) (only parsing).

(** The exceptions a run can meet. [ConnectTimeout] derives from both
    [ConnectionError] and [Timeout]; [UnicodeEncodeError] derives from
    [ValueError]; [KeyboardInterrupt] derives from [BaseException] only. *)
Inductive exn :=
  | ConnectionError | ConnectTimeout | ReadTimeout | HTTPError
  | InvalidURL | ChunkedEncodingError
  | PermissionError | FileExistsError | IsADirectoryError | OSError
  | ValueError | UnicodeEncodeError | EOFError
  | KeyboardInterrupt.

Definition is_ConnectionError (e : exn) : bool :=
  match e with ConnectionError | ConnectTimeout => true | _ => false end.

Definition is_Timeout (e : exn) : bool :=
  match e with ConnectTimeout | ReadTimeout => true | _ => false end.

Definition is_HTTPError (e : exn) : bool :=
  match e with HTTPError => true | _ => false end.

Definition is_RequestException (e : exn) : bool :=
  match e with
  | ConnectionError | ConnectTimeout | ReadTimeout | HTTPError
  | InvalidURL | ChunkedEncodingError => true
  | _ => false
  end.

Definition is_PermissionError (e : exn) : bool :=
  match e with PermissionError => true | _ => false end.

Definition is_Exception (e : exn) : bool :=
  match e with KeyboardInterrupt => false | _ => true end.

(** A path holds a directory or a file with its content. *)
Inductive node := Dir | File (content : bytes).

(** [headers] is keyed by lower-cased header names, as the case-insensitive
    dictionary of the HTTP library is; [body] lists what the chunk iterator
    yields, a chunk or the exception that ends the stream. *)
Record response := {
  status_code : Z;
  headers : gmap (list N) (list N);
  body : list (exn + bytes)
}.

(** The library calls that can fail for reasons outside the program. *)
Inductive step := StepMakedirs | StepOpen | StepWrite | StepGetsize.

(** [dir_size] is what the file system reports as the size of a directory
    entry. *)
Record world := {
  console : list (exn + str);
  files : gmap (list N) node;
  get_result : exn + response;
  faults : step -> option exn;
  dir_size : Z
}.

Inductive prompt :=
  | PromptUrl | PromptContinueAnyway | PromptOverwrite | PromptContinueDownload.

(** One constructor per [print] call of [main]. *)
Inductive message :=
  | MsgWelcome | MsgTagline | MsgNoUrl | MsgConnecting
  | MsgNotImage (content_type : str) | MsgCancelledType
  | MsgExists (filename : str) | MsgSavingAs (filename : str)
  | MsgLargeFile (file_size : Z) | MsgCancelledLarge
  | MsgFetched (filename : str) | MsgSavedTo (filepath : str)
  | MsgFileSize (actual_size : Z) | MsgSizeMismatch
  | MsgStrengthened | MsgThanks
  | MsgConnectionError | MsgWisdomConnection
  | MsgTimeout | MsgWisdomTimeout
  | MsgHTTPError (e : exn) | MsgWisdomHTTP
  | MsgRequestError (e : exn) | MsgWisdomRequest
  | MsgPermission | MsgWisdomPermission
  | MsgUnexpected (e : exn) | MsgWisdomUnexpected.

(** What a run does to the outside, in order. [EvOpen] records whether the
    path existed when the file was opened for writing. *)
Inductive event :=
  | EvPrint (m : message)
  | EvInput (p : prompt) (answer : exn + str)
  | EvMakedirs (path : str)
  | EvGet (url : str)
  | EvOpen (filepath : str) (existed : bool)
  | EvWrite (filepath : str) (chunk : bytes).

(** What the interpreter and the standard library compute and the
    repository does not define: the salted [hash] of a string, the [path]
    component of [urlparse] ([None] when it raises [ValueError]), [int] of
    a string ([None] when it raises [ValueError]), and what standard output
    does with a line: [print_raises t m] is the exception that [print]
    raises for the line [m] once the events [t] have happened
    ([UnicodeEncodeError] when the encoding of the stream lacks a character
    of the line, [OSError] when the stream is closed or broken), [None]
    when the line is written. *)
Class Runtime := {
  py_hash : str -> Z;
  urlparse_path : str -> option str;
  py_int : str -> option Z;
  print_raises : list event -> message -> option exn
}.

Record state := {
  stdin : list (exn + str);
  fs : gmap (list N) node;
  trace : list event
}.

Definition initial (w : world) : state :=
  {| stdin := console w; fs := files w; trace := [] |}.

(** ** The monad of [main] *)

(** A statement completes with a value, executes [return], raises, or (for
    the model of the [while] loop only) exhausts its fuel. *)
Inductive outcome (A : Type) :=
  | Val (a : A) | Returned | Raised (e : exn) | OutOfFuel.
Arguments Val {A} a.
Arguments Returned {A}.
Arguments Raised {A} e.
Arguments OutOfFuel {A}.

Definition M (A : Type) : Type := state -> outcome A * state.

Definition ret {A} (a : A) : M A := fun s => (Val a, s).

Definition bind {A B} (m : M A) (k : A -> M B) : M B := fun s =>
  match m s with
  | (Val a, s') => k a s'
  | (Returned, s') => (Returned, s')
  | (Raised e, s') => (Raised e, s')
  | (OutOfFuel, s') => (OutOfFuel, s')
  end.

Notation "x <- c1 ;; c2" := (bind c1 (fun x => c2))
  (at level 100, c1 at next level, right associativity).
Notation "c1 ;; c2" := (bind c1 (fun _ => c2))
  (at level 100, right associativity).

Definition raise {A} (e : exn) : M A := fun s => (Raised e, s).
Definition return_ {A} : M A := fun s => (Returned, s).
Definition out_of_fuel {A} : M A := fun s => (OutOfFuel, s).

Definition emit (ev : event) : M unit := fun s =>
  (Val tt, {| stdin := stdin s; fs := fs s; trace := trace s ++ [ev] |}).

(** [print(m)]: the line is written, or [print] raises and nothing is
    written. *)
Definition print {rt : Runtime} (m : message) : M unit := fun s =>
  match print_raises (trace s) m with
  | Some e => (Raised e, s)
  | None => emit (EvPrint m) s
  end.

(** [input(p)]: the next console item; end of input raises [EOFError]. *)
Definition input (p : prompt) : M str := fun s =>
  match stdin s with
  | [] =>
      (Raised EOFError,
       {| stdin := []; fs := fs s; trace := trace s ++ [EvInput p (inl EOFError)] |})
  | inl e :: rest =>
      (Raised e,
       {| stdin := rest; fs := fs s; trace := trace s ++ [EvInput p (inl e)] |})
  | inr line :: rest =>
      (Val line,
       {| stdin := rest; fs := fs s; trace := trace s ++ [EvInput p (inr line)] |})
  end.

(** [try: body except ...], with the [except] clauses as [handler]. *)
Definition try_except {A} (body : M A) (handler : exn -> option (M A)) : M A :=
  fun s =>
    match body s with
    | (Raised e, s') =>
        match handler e with
        | Some h => h s'
        | None => (Raised e, s')
        end
    | r => r
    end.

Definition present {A} (x : option A) : bool :=
  match x with Some _ => true | None => false end.

(** [os.path.exists(filepath)] *)
Definition path_exists (filepath : str) : M bool := fun s =>
  (Val (present (fs s !! filepath)), s).

Definition set_fs (f : gmap (list N) node -> gmap (list N) node) : M unit := fun s =>
  (Val tt, {| stdin := stdin s; fs := f (fs s); trace := trace s |}).

(** ** The library calls of [main] *)

Definition Fetched_Images : str := lit "Fetched_Images".

Section Program.

Context {rt : Runtime} (w : world).

(** [os.makedirs(path, exist_ok=True)] *)
Definition makedirs (path : str) : M unit :=
  match faults w StepMakedirs with
  | Some e => raise e
  | None =>
      emit (EvMakedirs path) ;;
      isdir <- (fun s => (Val (fs s !! path), s)) ;;
      match isdir with
      | Some Dir => ret tt
      | Some (File _) => raise FileExistsError
      | None => set_fs (insert path Dir)
      end
  end.

(** [requests.get(url, timeout=10, headers=headers, stream=True)] *)
Definition requests_get (url : str) : M response :=
  emit (EvGet url) ;;
  match get_result w with
  | inl e => raise e
  | inr r => ret r
  end.

(** [response.raise_for_status()] *)
Definition raise_for_status (r : response) : M unit :=
  if (400 <=? status_code r) && (status_code r <? 600) then raise HTTPError
  else ret tt.

(** [response.headers.get(name, default)] *)
Definition headers_get (r : response) (name : str) : option str :=
  headers r !! lower name.

(** [open(filepath, 'wb')] *)
Definition open_wb (filepath : str) : M unit :=
  match faults w StepOpen with
  | Some e => raise e
  | None =>
      node <- (fun s => (Val (fs s !! filepath), s)) ;;
      match node with
      | Some Dir => raise IsADirectoryError
      | _ =>
          emit (EvOpen filepath (present node)) ;;
          set_fs (insert filepath (File []))
      end
  end.

(** [f.write(chunk)] *)
Definition write (filepath : str) (chunk : bytes) : M unit :=
  match faults w StepWrite with
  | Some e => raise e
  | None =>
      emit (EvWrite filepath chunk) ;;
      set_fs (alter (fun n => match n with
                              | File c => File (c ++ chunk)
                              | Dir => Dir
                              end) filepath)
  end.

(** [os.path.getsize(filepath)] *)
Definition getsize (filepath : str) : M Z :=
  match faults w StepGetsize with
  | Some e => raise e
  | None => fun s =>
      match fs s !! filepath with
      | Some (File c) => (Val (Z.of_nat (length c)), s)
      | Some Dir => (Val (dir_size w), s)
      | None => (Raised OSError, s)
      end
  end.

(** [int(x)] where [x] is the header value or the default [0]. *)
Definition int_of_header (x : option str) : M Z :=
  match x with
  | None => ret 0
  | Some v =>
      match py_int v with
      | Some z => ret z
      | None => raise ValueError
      end
  end.

(** ** main, block by block *)

(** Lines 37-42: the image-type check. *)
Definition check_image_type (content_type : str) : M unit :=
  if negb (startswith content_type (lit "image/")) then
    print (MsgNotImage content_type) ;;
    proceed <- input PromptContinueAnyway ;;
    if negb (str_eqb (lower proceed) (lit "y")) then
      print MsgCancelledType ;;
      return_
    else ret tt
  else ret tt.

(** Line 51: the synthesized name. *)
Definition synthesized (url extension : str) : str :=
  lit "ubuntu_image_" ++ str_of_int (py_hash url mod 10000) ++ extension.

(** Lines 45-54: the file name from the URL or the content type. *)
Definition derive_filename (url content_type : str) : M str :=
  match urlparse_path url with
  | None => raise ValueError
  | Some path =>
      let filename := basename path in
      let filename :=
        if bool_decide (filename = []) || negb (contains extsep filename) then
          let extension :=
            py_or (get_extension_from_content_type content_type) (lit ".jpg") in
          synthesized url extension
        else filename in
      ret (sanitize_filename filename)
  end.

(** Lines 65-68: the [while os.path.exists(filepath)] loop. *)
Fixpoint unique_name (fuel : nat) (base ext filename filepath : str)
    (counter : nat) : M (str * str) :=
  match fuel with
  | O => out_of_fuel
  | S fuel' =>
      taken <- path_exists filepath ;;
      if taken then
        let filename := base ++ lit "_" ++ str_of_nat counter ++ ext in
        let filepath := path_join Fetched_Images filename in
        unique_name fuel' base ext filename filepath (S counter)
      else ret (filename, filepath)
  end.

(** Lines 58-69: the duplicate check. The loop is run with more fuel than
    there are paths, which [unique_name_fuel] shows to be enough. *)
Definition resolve_duplicate (filename filepath : str) : M (str * str) :=
  taken <- path_exists filepath ;;
  if taken then
    print (MsgExists filename) ;;
    choice <- input PromptOverwrite ;;
    if negb (str_eqb (lower choice) (lit "y")) then
      let '(base, ext) := splitext filename in
      n <- (fun s => (Val (size (fs s)), s)) ;;
      r <- unique_name (S (S n)) base ext filename filepath 1 ;;
      print (MsgSavingAs (fst r)) ;;
      ret r
    else ret (filename, filepath)
  else ret (filename, filepath).

(** Lines 72-78: the declared size and the large-file confirmation. *)
Definition check_size (r : response) : M Z :=
  file_size <- int_of_header (headers_get r (lit "content-length")) ;;
  if 50 * 1024 * 1024 <? file_size then
    print (MsgLargeFile file_size) ;;
    proceed <- input PromptContinueDownload ;;
    if negb (str_eqb (lower proceed) (lit "y")) then
      print MsgCancelledLarge ;;
      return_
    else ret file_size
  else ret file_size.

(** Lines 81-83: the chunk loop. *)
Fixpoint write_chunks (filepath : str) (chunks : list (exn + bytes)) : M unit :=
  match chunks with
  | [] => ret tt
  | inl e :: _ => raise e
  | inr chunk :: rest =>
      (if bool_decide (chunk = []) then ret tt else write filepath chunk) ;;
      write_chunks filepath rest
  end.

(** Lines 80-83. *)
Definition save (r : response) (filepath : str) : M unit :=
  open_wb filepath ;;
  write_chunks filepath (body r).

(** Lines 86-95. *)
Definition report (filename filepath : str) (file_size : Z) : M unit :=
  actual_size <- getsize filepath ;;
  print (MsgFetched filename) ;;
  print (MsgSavedTo filepath) ;;
  print (MsgFileSize actual_size) ;;
  (if (0 <? file_size) && negb (actual_size =? file_size)
   then print MsgSizeMismatch else ret tt) ;;
  print MsgStrengthened ;;
  print MsgThanks.

(** Lines 24-69: everything before the size check. *)
Definition prepare (url : str) : M (response * (str * str)) :=
  makedirs Fetched_Images ;;
  print MsgConnecting ;;
  r <- requests_get url ;;
  raise_for_status r ;;
  let content_type := default [] (headers_get r (lit "content-type")) in
  check_image_type content_type ;;
  filename <- derive_filename url content_type ;;
  let filepath := path_join Fetched_Images filename in
  target <- resolve_duplicate filename filepath ;;
  ret (r, target).

(** Lines 72-95: the size check, the download and the report. *)
Definition download (r : response) (filename filepath : str) : M unit :=
  file_size <- check_size r ;;
  save r filepath ;;
  report filename filepath file_size.

(** Lines 23-95: the body of the [try]. *)
Definition main_try (url : str) : M unit :=
  p <- prepare url ;;
  download (fst p) (fst (snd p)) (snd (snd p)).

(** Lines 97-114: the [except] clauses, first match wins. *)
Definition handlers (e : exn) : option (M unit) :=
  if is_ConnectionError e then
    Some (print MsgConnectionError ;; print MsgWisdomConnection)
  else if is_Timeout e then
    Some (print MsgTimeout ;; print MsgWisdomTimeout)
  else if is_HTTPError e then
    Some (print (MsgHTTPError e) ;; print MsgWisdomHTTP)
  else if is_RequestException e then
    Some (print (MsgRequestError e) ;; print MsgWisdomRequest)
  else if is_PermissionError e then
    Some (print MsgPermission ;; print MsgWisdomPermission)
  else if is_Exception e then
    Some (print (MsgUnexpected e) ;; print MsgWisdomUnexpected)
  else None.

Definition main : M unit :=
  print MsgWelcome ;;
  print MsgTagline ;;
  line <- input PromptUrl ;;
  let url := strip line in
  if bool_decide (url = []) then
    print MsgNoUrl ;;
    return_
  else try_except (main_try url) handlers.

(** One run of the program in the world [w]. *)
Definition run : outcome unit * state := main (initial w).

End Program.

(** * Properties *)

(** ** Slices and splitext *)

Lemma len_nonneg (s : str) : 0 <= len s.
Proof. unfold len. lia. Qed.

Lemma len_app (a b : str) : len (a ++ b) = len a + len b.
Proof. unfold len. rewrite length_app. lia. Qed.

Lemma slice_to_from (p : str) (k : Z) : slice_to p k ++ slice_from p k = p.
Proof. apply take_drop. Qed.

Lemma slice_to_zero (p : str) : slice_to p 0 = [].
Proof.
  unfold slice_to, slice_bound. simpl.
  pose proof (len_nonneg p). rewrite Z.min_l by lia. reflexivity.
Qed.

Lemma len_slice_to (p : str) (k : Z) :
  0 <= k -> len (slice_to p k) = Z.min k (len p).
Proof.
  intros Hk. unfold slice_to, slice_bound, len.
  destruct (Z.ltb_spec k 0) as [?|_]; [lia|].
  rewrite length_take. fold (len p). pose proof (len_nonneg p). unfold len in *. lia.
Qed.

Lemma splitext_app (p : str) : fst (splitext p) ++ snd (splitext p) = p.
Proof.
  unfold splitext.
  destruct (_ && _); simpl.
  - apply slice_to_from.
  - rewrite slice_to_zero. apply app_nil_r.
Qed.

(** ** The replacement loop, character by character *)

Definition sanitize_char (c : char) : char :=
  if bool_decide (c ∈ dangerous_chars) then underscore else c.

Lemma replace_dangerous_map (filename : str) :
  replace_dangerous filename = List.map sanitize_char filename.
Proof.
  unfold replace_dangerous, dangerous_chars. simpl fold_left.
  unfold replace. rewrite !List.map_map. apply List.map_ext. intros c.
  unfold sanitize_char, underscore.
  repeat match goal with
  | |- context [(c =? ?k)%N] =>
      destruct (N.eqb_spec c k) as [->|?]; [reflexivity|]
  end.
  rewrite bool_decide_eq_false_2; [reflexivity|].
  unfold dangerous_chars. rewrite !elem_of_cons, elem_of_nil. intuition congruence.
Qed.

Lemma sanitize_char_safe (c : char) : sanitize_char c ∉ dangerous_chars.
Proof.
  unfold sanitize_char. case_bool_decide as H; [|exact H].
  unfold underscore, dangerous_chars. rewrite !elem_of_cons, elem_of_nil.
  intros ?. repeat match goal with H : _ \/ _ |- _ => destruct H end; done.
Qed.

Lemma sanitize_char_id (c : char) : c ∉ dangerous_chars -> sanitize_char c = c.
Proof. intros H. unfold sanitize_char. by rewrite bool_decide_eq_false_2. Qed.

Lemma replace_dangerous_safe (filename : str) (c : char) :
  c ∈ replace_dangerous filename -> c ∉ dangerous_chars.
Proof.
  rewrite replace_dangerous_map. intros H.
  apply list_elem_of_In, List.in_map_iff in H as (x & <- & _).
  apply sanitize_char_safe.
Qed.

Lemma replace_dangerous_id (filename : str) :
  (forall c, c ∈ dangerous_chars -> c ∉ filename) ->
  replace_dangerous filename = filename.
Proof.
  intros H. rewrite replace_dangerous_map.
  rewrite <- (List.map_id filename) at 2. apply List.map_ext_in.
  intros c Hc. apply sanitize_char_id. intros Hd.
  apply (H c Hd). by apply list_elem_of_In.
Qed.

Lemma len_replace_dangerous (filename : str) :
  len (replace_dangerous filename) = len filename.
Proof. rewrite replace_dangerous_map. unfold len. by rewrite length_map. Qed.

(** What [sanitize_filename] returns is made of characters of the replaced
    name. *)
Lemma sanitize_filename_chars (filename : str) (c : char) :
  c ∈ sanitize_filename filename -> c ∈ replace_dangerous filename.
Proof.
  unfold sanitize_filename. destruct (255 <? _); [|done].
  pose proof (splitext_app (replace_dangerous filename)) as Happ.
  destruct (splitext _) as [name ext]. simpl in Happ.
  rewrite <- Happ, !elem_of_app. intros [H|H]; [left|by right].
  unfold slice_to in H. apply elem_of_take in H as (i & Hi & _).
  by eapply list_elem_of_lookup_2.
Qed.

(** ** rfind and splitext under the replacement *)

Lemma rfind_from_map (g : char -> char) (c : char) (s : str) (i acc : Z) :
  (forall x, (g x =? c)%N = (x =? c)%N) ->
  rfind_from c (List.map g s) i acc = rfind_from c s i acc.
Proof.
  intros Hg. revert i acc.
  induction s as [|x t IH]; intros i acc; simpl; [reflexivity|].
  by rewrite Hg, IH.
Qed.

Lemma rfind_from_absent (c : char) (s : str) (i acc : Z) :
  c ∉ s -> rfind_from c s i acc = acc.
Proof.
  revert i acc. induction s as [|x t IH]; intros i acc Hc; simpl; [reflexivity|].
  apply not_elem_of_cons in Hc as [Hx Ht].
  destruct (N.eqb_spec x c) as [->|_]; [done|]. by apply IH.
Qed.

Lemma rfind_from_lower (c : char) (s : str) (i acc : Z) :
  -1 <= acc -> 0 <= i -> -1 <= rfind_from c s i acc.
Proof.
  revert i acc. induction s as [|x t IH]; intros i acc Ha Hi; simpl; [exact Ha|].
  apply IH; [destruct (x =? c)%N|]; lia.
Qed.

Lemma rfind_lower (s : str) (c : char) : -1 <= rfind s c.
Proof. apply rfind_from_lower; lia. Qed.

Lemma skip_leading_dots_map (g : char -> char) (p : str) (fuel i : nat) :
  (forall x, g x = extsep <-> x = extsep) ->
  skip_leading_dots (List.map g p) fuel i = skip_leading_dots p fuel i.
Proof.
  intros Hg. revert i. induction fuel as [|fuel IH]; intros i; simpl; [reflexivity|].
  rewrite IH. change (List.map g p) with (g <$> p). rewrite list_lookup_fmap.
  destruct (p !! i) as [x|] eqn:Hx; simpl; [|reflexivity].
  destruct (decide (x = extsep)) as [->|Hne].
  - rewrite (proj2 (Hg extsep) eq_refl). by rewrite !bool_decide_eq_true_2.
  - rewrite !bool_decide_eq_false_2; [reflexivity|congruence|].
    intros [= Hgx]. by apply Hne, Hg.
Qed.

Lemma skip_leading_dots_extend (p : str) (fuel i : nat) :
  skip_leading_dots p fuel (S i) = true -> skip_leading_dots p (S fuel) i = true.
Proof. intros H. simpl. by destruct (bool_decide _). Qed.

Lemma skip_leading_dots_shift (p : str) (fuel i : nat) :
  skip_leading_dots p fuel i = true -> skip_leading_dots p (fuel + i) 0 = true.
Proof.
  revert fuel. induction i as [|i IH]; intros fuel H.
  - by rewrite Nat.add_0_r.
  - apply skip_leading_dots_extend, IH in H.
    by replace (fuel + S i)%nat with (S fuel + i)%nat by lia.
Qed.

Lemma sanitize_char_extsep (x : char) : sanitize_char x = extsep <-> x = extsep.
Proof.
  unfold sanitize_char. case_bool_decide as H; [|done].
  unfold dangerous_chars in H. rewrite !elem_of_cons, elem_of_nil in H.
  unfold underscore, extsep in *. split; [discriminate|].
  intros ->. intuition congruence.
Qed.

Lemma sep_not_in_replaced (filename : str) : sep ∉ replace_dangerous filename.
Proof.
  intros H. apply replace_dangerous_safe in H. apply H.
  unfold sep, dangerous_chars. rewrite !elem_of_cons. tauto.
Qed.

(** A non-empty extension of the input is the extension after the
    replacement too, up to the replacement itself. *)
Lemma splitext_replace_dangerous (filename : str) :
  snd (splitext filename) <> [] ->
  snd (splitext (replace_dangerous filename))
  = replace_dangerous (snd (splitext filename)).
Proof.
  intros Hext.
  assert (Hdot : rfind (replace_dangerous filename) extsep = rfind filename extsep).
  { rewrite replace_dangerous_map. apply rfind_from_map. intros x.
    destruct (N.eqb_spec (sanitize_char x) extsep) as [H|H];
      destruct (N.eqb_spec x extsep) as [H'|H']; try reflexivity.
    - exfalso. by apply H', sanitize_char_extsep.
    - exfalso. by apply H, sanitize_char_extsep. }
  assert (Hsep : rfind (replace_dangerous filename) sep = -1).
  { apply rfind_from_absent, sep_not_in_replaced. }
  unfold splitext in *. rewrite Hdot, Hsep.
  pose proof (rfind_lower filename sep) as Hlow.
  destruct (_ && _) eqn:Hcond in Hext; rewrite Hcond in *; simpl in Hext.
  2:{ by rewrite slice_to_zero in Hext. }
  apply andb_true_iff in Hcond as [Hlt Hskip].
  apply Z.ltb_lt in Hlt.
  apply skip_leading_dots_shift in Hskip.
  replace (_ + _)%nat with (Z.to_nat (rfind filename extsep)) in Hskip by lia.
  assert (Hc : (-1 <? rfind filename extsep)
               && skip_leading_dots (replace_dangerous filename)
                    (Z.to_nat (rfind filename extsep - (-1 + 1)))
                    (Z.to_nat (-1 + 1)) = true).
  { apply andb_true_iff; split; [apply Z.ltb_lt; lia|].
    rewrite replace_dangerous_map,
      (skip_leading_dots_map _ _ _ _ sanitize_char_extsep).
    by replace (rfind filename extsep - (-1 + 1)) with (rfind filename extsep) by lia. }
  rewrite Hc. simpl.
  unfold slice_from, slice_bound. rewrite len_replace_dangerous.
  rewrite !replace_dangerous_map. apply List.skipn_map.
Qed.

(** ** sanitize_filename *)

(** What the truncation keeps of the replaced name: its first [n]
    characters and what follows its first [d] characters. *)
Lemma sanitize_filename_cut (filename : str) :
  exists n d : nat,
    (n <= d <= length filename)%nat
    /\ (len filename <= 255 -> n = d)
    /\ sanitize_filename filename
       = List.map sanitize_char (take n filename ++ drop d filename).
Proof.
  unfold sanitize_filename. rewrite len_replace_dangerous.
  destruct (Z.ltb_spec 255 (len filename)) as [Hlong|Hshort].
  - pose proof (splitext_app (replace_dangerous filename)) as Happ.
    destruct (splitext _) as [name ext]. simpl in Happ.
    assert (Hlen : (length name <= length filename)%nat).
    { apply (f_equal length) in Happ.
      rewrite length_app, replace_dangerous_map, length_map in Happ. lia. }
    exists (min (slice_bound name (255 - len ext)) (length name)), (length name).
    split; [lia|]. split; [lia|].
    change (List.map sanitize_char (take ?n filename ++ drop ?d filename))
      with (sanitize_char <$> (take n filename ++ drop d filename)).
    rewrite fmap_app, fmap_take, fmap_drop.
    change (sanitize_char <$> filename) with (List.map sanitize_char filename).
    rewrite <- replace_dangerous_map, <- Happ.
    rewrite drop_app_length. f_equal.
    rewrite <- take_take, take_app_length. reflexivity.
  - exists O, O. split; [lia|]. split; [done|].
    rewrite take_0, drop_0. apply replace_dangerous_map.
Qed.

(** C6: whatever the input, the output of [sanitize_filename] holds none of
    the nine dangerous characters. The replacement step maps the input
    character by character: a dangerous character becomes an underscore,
    any other character stays, in place. For an input of at most 255
    characters that image is the output: it has the length of the input
    and, position by position, an underscore for a dangerous character and
    the character of the input for any other. For a longer input the output
    is that image of the input with one block of characters left out. *)
Theorem sanitize_filename_replaces (filename : str) :
  Forall (fun c => c ∉ sanitize_filename filename) dangerous_chars
  /\ replace_dangerous filename
     = List.map (fun c => if bool_decide (c ∈ dangerous_chars)
                          then underscore else c) filename
  /\ length (replace_dangerous filename) = length filename
  /\ (len filename <= 255 ->
      sanitize_filename filename
      = List.map (fun c => if bool_decide (c ∈ dangerous_chars)
                           then underscore else c) filename
      /\ length (sanitize_filename filename) = length filename
      /\ forall i c,
           filename !! i = Some c ->
           sanitize_filename filename !! i
           = Some (if bool_decide (c ∈ dangerous_chars) then underscore else c))
  /\ exists n d : nat,
       (n <= d <= length filename)%nat
       /\ sanitize_filename filename
          = List.map (fun c => if bool_decide (c ∈ dangerous_chars)
                               then underscore else c)
              (take n filename ++ drop d filename).
Proof.
  split; [|split; [|split; [|split]]].
  - apply Forall_forall. intros c Hc Hin.
    apply sanitize_filename_chars, replace_dangerous_safe in Hin. by apply Hin.
  - apply replace_dangerous_map.
  - rewrite replace_dangerous_map. apply length_map.
  - intros Hshort.
    assert (Heq : sanitize_filename filename = List.map sanitize_char filename).
    { unfold sanitize_filename. rewrite len_replace_dangerous.
      destruct (Z.ltb_spec 255 (len filename)); [lia|apply replace_dangerous_map]. }
    split; [exact Heq|]. split; [rewrite Heq; apply length_map|].
    intros i c Hi. rewrite Heq.
    change (List.map sanitize_char filename) with (sanitize_char <$> filename).
    by rewrite list_lookup_fmap, Hi.
  - destruct (sanitize_filename_cut filename) as (n & d & Hnd & _ & Heq).
    by exists n, d.
Qed.

Lemma sanitize_filename_replaces_witness :
  sanitize_filename (lit "my:file?.png") = lit "my_file_.png"
  /\ length (sanitize_filename (lit "my:file?.png")) = 12%nat.
Proof.
  destruct (sanitize_filename_replaces (lit "my:file?.png"))
    as (_ & _ & _ & H & _).
  destruct H as (-> & Hlen & _); [by vm_compute|].
  split; reflexivity.
Defined.

(** With an extension of at most 255 characters the truncation yields
    exactly 255 characters. *)
Lemma sanitize_filename_long (filename : str) :
  255 < len filename ->
  len (snd (splitext (replace_dangerous filename))) <= 255 ->
  sanitize_filename filename
  = slice_to (fst (splitext (replace_dangerous filename)))
      (255 - len (snd (splitext (replace_dangerous filename))))
    ++ snd (splitext (replace_dangerous filename))
  /\ len (sanitize_filename filename) = 255.
Proof.
  intros Hlong Hext. unfold sanitize_filename.
  rewrite len_replace_dangerous.
  destruct (Z.ltb_spec 255 (len filename)) as [_|?]; [|lia].
  pose proof (splitext_app (replace_dangerous filename)) as Happ.
  destruct (splitext _) as [name ext]. simpl in *.
  split; [reflexivity|].
  apply (f_equal len) in Happ. rewrite len_replace_dangerous, len_app in Happ.
  rewrite len_app, len_slice_to by lia. lia.
Qed.

(** Without a slash in the input the replacement step and [splitext]
    commute on the extension. *)
Lemma splitext_replace_dangerous_nosep (filename : str) :
  sep ∉ filename ->
  snd (splitext (replace_dangerous filename))
  = replace_dangerous (snd (splitext filename)).
Proof.
  intros Hsep.
  assert (Hdot : rfind (replace_dangerous filename) extsep = rfind filename extsep).
  { rewrite replace_dangerous_map. apply rfind_from_map. intros x.
    destruct (N.eqb_spec (sanitize_char x) extsep) as [H|H];
      destruct (N.eqb_spec x extsep) as [H'|H']; try reflexivity.
    - exfalso. by apply H', sanitize_char_extsep.
    - exfalso. by apply H, sanitize_char_extsep. }
  assert (Hs : rfind (replace_dangerous filename) sep = rfind filename sep).
  { unfold rfind. rewrite !rfind_from_absent; [done|done|apply sep_not_in_replaced]. }
  unfold splitext. rewrite Hdot, Hs.
  rewrite replace_dangerous_map at 1.
  rewrite (skip_leading_dots_map _ _ _ _ sanitize_char_extsep).
  destruct (_ && _); simpl.
  - unfold slice_from, slice_bound. rewrite len_replace_dangerous.
    rewrite !replace_dangerous_map. apply List.skipn_map.
  - by rewrite !slice_to_zero.
Qed.

(** C1, as amended: let [E] be the extension that [splitext] gives the
    name after the replacement step. A name of more than 255 characters
    with [E] of at most 255 characters comes out with exactly 255
    characters: the first [255 - len E] characters of the replaced name,
    followed by [E]. When the extension of the input is not empty, or the
    input holds no slash, [E] is the extension of the input with every
    dangerous character replaced by an underscore; so a non-empty extension
    of the input stands unchanged at the end of the output exactly when it
    holds no dangerous character. *)
Theorem sanitize_filename_truncates (filename : str) :
  255 < len filename ->
  len (snd (splitext (replace_dangerous filename))) <= 255 ->
  len (sanitize_filename filename) = 255
  /\ sanitize_filename filename
     = take (Z.to_nat (255 - len (snd (splitext (replace_dangerous filename)))))
         (replace_dangerous filename)
       ++ snd (splitext (replace_dangerous filename))
  /\ (snd (splitext filename) <> [] \/ sep ∉ filename ->
      snd (splitext (replace_dangerous filename))
      = replace_dangerous (snd (splitext filename)))
  /\ (snd (splitext filename) <> [] ->
      (snd (splitext filename) `suffix_of` sanitize_filename filename
       <-> Forall (fun c => c ∉ dangerous_chars) (snd (splitext filename)))).
Proof.
  intros Hlong Hext.
  destruct (sanitize_filename_long filename Hlong Hext) as [Heq Hlen].
  assert (Hcut : sanitize_filename filename
     = take (Z.to_nat (255 - len (snd (splitext (replace_dangerous filename)))))
         (replace_dangerous filename)
       ++ snd (splitext (replace_dangerous filename))).
  { rewrite Heq. f_equal.
    pose proof (splitext_app (replace_dangerous filename)) as Happ.
    destruct (splitext (replace_dangerous filename)) as [name ext].
    simpl in *. pose proof (len_nonneg ext).
    assert (Hname : 255 - len ext <= len name).
    { apply (f_equal len) in Happ.
      rewrite len_app, len_replace_dangerous in Happ. lia. }
    unfold slice_to, slice_bound.
    destruct (Z.ltb_spec (255 - len ext) 0) as [?|_]; [lia|].
    rewrite Z.min_l by lia. rewrite <- Happ.
    rewrite take_app_le; [done|]. unfold len in *. lia. }
  assert (Hrep : snd (splitext filename) <> [] \/ sep ∉ filename ->
      snd (splitext (replace_dangerous filename))
      = replace_dangerous (snd (splitext filename))).
  { intros [Hne|Hsep];
      [by apply splitext_replace_dangerous
      |by apply splitext_replace_dangerous_nosep]. }
  split; [done|]. split; [done|]. split; [done|].
  intros Hne. rewrite Hcut, Hrep by (by left).
  set (ext := snd (splitext filename)).
  split.
  - intros [k Hk].
    apply app_inj_2 in Hk as [_ Hk];
      [|rewrite replace_dangerous_map; apply length_map].
    apply Forall_forall. intros c Hc. rewrite <- Hk in Hc.
    by apply replace_dangerous_safe in Hc.
  - intros Hsafe. rewrite replace_dangerous_id.
    + apply suffix_app_r. reflexivity.
    + intros c Hd Hc. by apply (proj1 (Forall_forall _ _) Hsafe c Hc).
Qed.

(** The name of the witness and of the counterexample of C1: 260 letters
    [a] and the extension [.j:pg]. *)
Definition long_name_colon : str := repeat 97%N 260 ++ lit ".j:pg".

Lemma sanitize_filename_truncates_witness :
  len (sanitize_filename long_name_colon) = 255
  /\ sanitize_filename long_name_colon = repeat 97%N 250 ++ lit ".j_pg"
  /\ snd (splitext (replace_dangerous long_name_colon)) = lit ".j_pg".
Proof.
  destruct (sanitize_filename_truncates long_name_colon)
    as (Hlen & Hcut & Hext & _).
  - by vm_compute.
  - vm_compute. congruence.
  - split; [exact Hlen|]. split.
    + rewrite Hcut. by vm_compute.
    + rewrite Hext; [by vm_compute|]. left. by vm_compute.
Defined.

(** An input with a slash after its last dot has no extension, and the
    replacement step gives it one: for 260 letters [a] followed by [.b/c]
    the output ends with [.b_c]. *)
Lemma sanitize_filename_extension_appears :
  snd (splitext (repeat 97%N 260 ++ lit ".b/c")) = []
  /\ snd (splitext (replace_dangerous (repeat 97%N 260 ++ lit ".b/c"))) = lit ".b_c"
  /\ sanitize_filename (repeat 97%N 260 ++ lit ".b/c")
     = repeat 97%N 251 ++ lit ".b_c".
Proof. by vm_compute. Qed.

(** C1 as the specification words it fails: the output for
    [long_name_colon] has 255 characters, but the extension of the input,
    [.j:pg], is not at its end (the output ends with [.j_pg]). *)
Lemma sanitize_filename_extension_changed :
  255 < len long_name_colon
  /\ ~ (len (sanitize_filename long_name_colon) <= 255
        /\ snd (splitext long_name_colon) `suffix_of` sanitize_filename long_name_colon).
Proof.
  split; [by vm_compute|].
  intros [_ Hs].
  assert (H : bool_decide (snd (splitext long_name_colon)
                             `suffix_of` sanitize_filename long_name_colon) = false)
    by (by vm_compute).
  by apply bool_decide_eq_false in H.
Qed.

(** A name without dangerous characters and of at most 255 characters is
    returned as it is. *)
Lemma sanitize_filename_safe (filename : str) :
  (forall c, c ∈ dangerous_chars -> c ∉ filename) ->
  len filename <= 255 ->
  sanitize_filename filename = filename.
Proof.
  intros Hsafe Hlen. unfold sanitize_filename.
  rewrite replace_dangerous_id by done.
  destruct (Z.ltb_spec 255 (len filename)); [lia|reflexivity].
Qed.

(** Sanitizing twice is sanitizing once whenever the first result has at
    most 255 characters. *)
Lemma sanitize_filename_idempotent_short (x : str) :
  len (sanitize_filename x) <= 255 ->
  sanitize_filename (sanitize_filename x) = sanitize_filename x.
Proof.
  intros Hlen. apply sanitize_filename_safe; [|done].
  intros c Hc Hin. apply sanitize_filename_chars, replace_dangerous_safe in Hin.
  by apply Hin.
Qed.

(** The failing input of C8: [a.] followed by 300 letters [b]. *)
Definition long_extension : str := lit "a." ++ repeat 98%N 300.

(** C8 at [long_extension]: the extension alone has 301 characters, the
    negative slice bound empties the base name, and the result keeps all
    301 characters; sanitizing that result again cuts it to 255. *)
Theorem sanitize_filename_not_idempotent :
  sanitize_filename long_extension = 46%N :: repeat 98%N 300
  /\ len (sanitize_filename long_extension) = 301
  /\ sanitize_filename (sanitize_filename long_extension)
     = 46%N :: repeat 98%N 254
  /\ sanitize_filename (sanitize_filename long_extension)
     <> sanitize_filename long_extension.
Proof. by vm_compute. Qed.

(** ** get_extension_from_content_type *)

(** The keys of the table, as the specification lists them. *)
Definition extension_keys : list str :=
  [ lit "image/jpeg"; lit "image/jpg"; lit "image/png"; lit "image/gif";
    lit "image/webp"; lit "image/bmp"; lit "image/svg+xml"; lit "image/tiff" ].

Lemma extension_keys_items : extension_keys = extension_items.*1.
Proof. reflexivity. Qed.

(** C7: a content type whose lower-case form is one of the eight keys is
    mapped to the extension the table gives that key; every other content
    type is mapped to nothing, and the caller's [or '.jpg'] then yields
    [.jpg]. *)
Theorem get_extension_from_content_type_table (content_type : str) :
  (lower content_type = lit "image/jpeg" ->
   get_extension_from_content_type content_type = Some (lit ".jpg"))
  /\ (lower content_type = lit "image/jpg" ->
      get_extension_from_content_type content_type = Some (lit ".jpg"))
  /\ (lower content_type = lit "image/png" ->
      get_extension_from_content_type content_type = Some (lit ".png"))
  /\ (lower content_type = lit "image/gif" ->
      get_extension_from_content_type content_type = Some (lit ".gif"))
  /\ (lower content_type = lit "image/webp" ->
      get_extension_from_content_type content_type = Some (lit ".webp"))
  /\ (lower content_type = lit "image/bmp" ->
      get_extension_from_content_type content_type = Some (lit ".bmp"))
  /\ (lower content_type = lit "image/svg+xml" ->
      get_extension_from_content_type content_type = Some (lit ".svg"))
  /\ (lower content_type = lit "image/tiff" ->
      get_extension_from_content_type content_type = Some (lit ".tiff"))
  /\ (lower content_type ∉ extension_keys ->
      get_extension_from_content_type content_type = None
      /\ py_or (get_extension_from_content_type content_type) (lit ".jpg")
         = lit ".jpg").
Proof.
  unfold get_extension_from_content_type.
  repeat split; try (intros ->; reflexivity).
  - apply not_elem_of_list_to_map_1. by rewrite <- extension_keys_items.
  - unfold extensions. rewrite (not_elem_of_list_to_map_1 extension_items); [done|].
    by rewrite <- extension_keys_items.
Qed.

Lemma get_extension_from_content_type_table_witness :
  get_extension_from_content_type (lit "Image/PNG") = Some (lit ".png")
  /\ get_extension_from_content_type (lit "text/html") = None
  /\ py_or (get_extension_from_content_type (lit "text/html")) (lit ".jpg")
     = lit ".jpg".
Proof.
  split.
  - apply (get_extension_from_content_type_table (lit "Image/PNG")). reflexivity.
  - apply (get_extension_from_content_type_table (lit "text/html")).
    apply (bool_decide_unpack _). vm_compute. exact I.
Defined.

(** Every extension the table can give, and the default. *)
Definition known_extensions : list str :=
  [ lit ".jpg"; lit ".png"; lit ".gif"; lit ".webp"; lit ".bmp"; lit ".svg";
    lit ".tiff" ].

Lemma resolved_extension_known (content_type : str) :
  py_or (get_extension_from_content_type content_type) (lit ".jpg")
    ∈ known_extensions.
Proof.
  unfold get_extension_from_content_type.
  destruct (extensions !! lower content_type) as [e|] eqn:He.
  - apply elem_of_list_to_map_2 in He.
    unfold extension_items in He. rewrite !elem_of_cons, elem_of_nil in He.
    repeat match type of He with _ \/ _ => destruct He as [He|He] end;
      try done; inversion He; subst;
      apply (bool_decide_unpack _); vm_compute; exact I.
  - apply (bool_decide_unpack _). vm_compute. exact I.
Qed.

(** ** Decimal numerals *)

Lemma uint_digits_inj (d d' : Decimal.uint) :
  uint_digits d = uint_digits d' -> d = d'.
Proof.
  revert d'. induction d; intros d' H; destruct d'; simpl in H;
    try discriminate; try reflexivity; f_equal; apply IHd; congruence.
Qed.

Lemma str_of_nat_inj (n m : nat) : str_of_nat n = str_of_nat m -> n = m.
Proof.
  intros H. apply uint_digits_inj in H.
  apply (f_equal Nat.of_uint) in H. by rewrite !Unsigned.of_to in H.
Qed.

Lemma uint_digits_safe (d : Decimal.uint) (c : char) :
  c ∈ uint_digits d -> c ∉ dangerous_chars.
Proof.
  unfold dangerous_chars. rewrite !elem_of_cons, elem_of_nil.
  induction d; simpl; rewrite ?elem_of_cons, ?elem_of_nil;
    intros H; try tauto; destruct H as [->|H]; try tauto; intuition congruence.
Qed.

Lemma str_of_nat_short (n : nat) :
  (n < 100 * 100)%nat -> (length (str_of_nat n) <= 4)%nat.
Proof.
  intros Hn.
  assert (H : forallb (fun k => length (str_of_nat k) <=? 4)%nat
                (seq 0 (100 * 100)) = true)
    by (vm_compute; reflexivity).
  rewrite forallb_forall in H.
  apply Nat.leb_le, H, in_seq. lia.
Qed.

(** ** The synthesized file name *)

Section Synthesized.

Context {rt : Runtime}.

Lemma synthesized_safe (url extension : str) :
  extension ∈ known_extensions ->
  sanitize_filename (synthesized url extension) = synthesized url extension.
Proof.
  intros Hext. unfold synthesized.
  pose proof (Z.mod_pos_bound (py_hash url) 10000 eq_refl) as Hn.
  set (n := py_hash url mod 10000) in *.
  assert (Hstr : str_of_int n = str_of_nat (Z.to_nat n)).
  { unfold str_of_int. destruct (Z.ltb_spec n 0); [lia|reflexivity]. }
  rewrite Hstr.
  assert (Hsafe : forall c, c ∈ extension -> c ∉ dangerous_chars).
  { unfold known_extensions in Hext. rewrite !elem_of_cons, elem_of_nil in Hext.
    intros c Hc.
    repeat match type of Hext with _ \/ _ => destruct Hext as [Hext|Hext] end;
      try done; subst extension;
      revert c Hc; apply Forall_forall, (bool_decide_unpack _);
      vm_compute; exact I. }
  assert (Hlen : (length extension <= 5)%nat).
  { unfold known_extensions in Hext. rewrite !elem_of_cons, elem_of_nil in Hext.
    repeat match type of Hext with _ \/ _ => destruct Hext as [Hext|Hext] end;
      try done; subst extension; vm_compute; lia. }
  assert (Hlit : forall c, c ∈ lit "ubuntu_image_" -> c ∉ dangerous_chars).
  { apply Forall_forall, (bool_decide_unpack _). vm_compute. exact I. }
  apply sanitize_filename_safe.
  - intros c Hc Hin. rewrite !elem_of_app in Hin. destruct Hin as [Hin|[Hin|Hin]].
    + exact (Hlit _ Hin Hc).
    + exact (uint_digits_safe _ _ Hin Hc).
    + exact (Hsafe _ Hin Hc).
  - unfold len. rewrite !length_app.
    pose proof (str_of_nat_short (Z.to_nat n)) as Hshort.
    assert (length (lit "ubuntu_image_") = 13%nat) as -> by reflexivity.
    lia.
Qed.

(** C5: when the last path segment of the URL is empty or has no dot, the
    file name is [ubuntu_image_] followed by the decimal [hash(url) mod
    10000], a number from 0 to 9999, and by an extension; sanitizing leaves
    that name as it is. The extension is the one of the table for the
    lower-case form of the content type: [.jpg] for [image/jpeg] and
    [image/jpg], [.png] for [image/png], [.gif] for [image/gif], [.webp]
    for [image/webp], [.bmp] for [image/bmp], [.svg] for [image/svg+xml],
    [.tiff] for [image/tiff]; and [.jpg] for every other content type. *)
Theorem derive_filename_synthesized (url content_type path : str) (s : state) :
  urlparse_path url = Some path ->
  basename path = [] \/ extsep ∉ basename path ->
  exists ext : str,
    derive_filename url content_type s
    = (Val (lit "ubuntu_image_" ++ str_of_int (py_hash url mod 10000) ++ ext), s)
    /\ 0 <= py_hash url mod 10000 < 10000
    /\ (lower content_type = lit "image/jpeg" -> ext = lit ".jpg")
    /\ (lower content_type = lit "image/jpg" -> ext = lit ".jpg")
    /\ (lower content_type = lit "image/png" -> ext = lit ".png")
    /\ (lower content_type = lit "image/gif" -> ext = lit ".gif")
    /\ (lower content_type = lit "image/webp" -> ext = lit ".webp")
    /\ (lower content_type = lit "image/bmp" -> ext = lit ".bmp")
    /\ (lower content_type = lit "image/svg+xml" -> ext = lit ".svg")
    /\ (lower content_type = lit "image/tiff" -> ext = lit ".tiff")
    /\ (lower content_type
         ∉ [lit "image/jpeg"; lit "image/jpg"; lit "image/png"; lit "image/gif";
            lit "image/webp"; lit "image/bmp"; lit "image/svg+xml";
            lit "image/tiff"] ->
        ext = lit ".jpg").
Proof.
  intros Hpath Hseg.
  exists (py_or (get_extension_from_content_type content_type) (lit ".jpg")).
  split.
  { unfold derive_filename. rewrite Hpath.
    assert (bool_decide (basename path = []) || negb (contains extsep (basename path))
            = true) as ->.
    { destruct Hseg as [H|H].
      - by rewrite bool_decide_eq_true_2.
      - unfold contains. rewrite (bool_decide_eq_false_2 _ H). apply orb_true_r. }
    unfold ret. rewrite synthesized_safe by apply resolved_extension_known.
    reflexivity. }
  split; [by apply Z.mod_pos_bound|].
  unfold get_extension_from_content_type.
  repeat split; try (intros ->; reflexivity).
  intros Hno. unfold extensions.
  by rewrite (not_elem_of_list_to_map_1 extension_items).
Qed.

End Synthesized.

(** ** A runtime for closed examples *)

(** A path component for URLs of the shape [scheme://host/path?query]:
    what follows the host, up to the first [?] or [#]. *)
Fixpoint after_scheme (s : str) : option str :=
  match s with
  | 58 :: 47 :: 47 :: t => Some t
  | _ :: t => after_scheme t
  | [] => None
  end%N.

Fixpoint from_first_sep (s : str) : str :=
  match s with
  | c :: t => if (c =? 47)%N then s else from_first_sep t
  | [] => []
  end.

Fixpoint until_query (s : str) : str :=
  match s with
  | c :: t => if (c =? 63)%N || (c =? 35)%N then [] else c :: until_query t
  | [] => []
  end.

Definition simple_path (url : str) : option str :=
  match after_scheme url with
  | Some rest => Some (until_query (from_first_sep rest))
  | None => Some (until_query url)
  end.

(** [int] on strings of ASCII digits. *)
Fixpoint digits_value (s : str) (acc : Z) : option Z :=
  match s with
  | [] => Some acc
  | c :: t =>
      if ((48 <=? c) && (c <=? 57))%N
      then digits_value t (10 * acc + Z.of_N (c - 48))
      else None
  end.

Definition simple_int (s : str) : option Z :=
  match s with
  | [] => None
  | _ => digits_value s 0
  end.

(** A polynomial hash stands for the salted hash of one process. *)
Definition simple_hash (s : str) : Z :=
  fold_left (fun h c => (31 * h + Z.of_N c) mod 2 ^ 61) s 7.

(** Standard output takes every line. *)
Definition simple_runtime : Runtime :=
  {| py_hash := simple_hash; urlparse_path := simple_path; py_int := simple_int;
     print_raises := fun _ _ => None |}.

(** A world without input, files or network. *)
Definition silent_world : world :=
  {| console := []; files := ∅; get_result := inl ConnectionError;
     faults := fun _ => None; dir_size := 4096 |}.

Lemma derive_filename_synthesized_witness :
  @derive_filename simple_runtime (lit "https://example.com/image")
    (lit "Image/PNG") (initial silent_world)
  = (Val (lit "ubuntu_image_835.png"), initial silent_world)
  /\ @derive_filename simple_runtime (lit "https://example.com/image")
       (lit "text/html") (initial silent_world)
     = (Val (lit "ubuntu_image_835.jpg"), initial silent_world).
Proof.
  split.
  - destruct (@derive_filename_synthesized simple_runtime
                (lit "https://example.com/image") (lit "Image/PNG") (lit "/image")
                (initial silent_world))
      as (ext & -> & _ & _ & _ & Hpng & _).
    + reflexivity.
    + right. apply (bool_decide_unpack _). vm_compute. exact I.
    + rewrite (Hpng eq_refl). reflexivity.
  - destruct (@derive_filename_synthesized simple_runtime
                (lit "https://example.com/image") (lit "text/html") (lit "/image")
                (initial silent_world))
      as (ext & -> & _ & _ & _ & _ & _ & _ & _ & _ & _ & Hnone).
    + reflexivity.
    + right. apply (bool_decide_unpack _). vm_compute. exact I.
    + rewrite Hnone; [reflexivity|].
      apply (bool_decide_unpack _). vm_compute. exact I.
Defined.

(** ** The renaming loop *)

Definition candidate (base ext : str) (k : nat) : str :=
  base ++ lit "_" ++ str_of_nat k ++ ext.

Lemma path_join_Fetched_Images (b : str) :
  path_join Fetched_Images b
  = if startswith b [sep] then b else Fetched_Images ++ sep :: b.
Proof.
  unfold path_join. destruct (startswith b [sep]); [done|].
  by replace (bool_decide (Fetched_Images = [])
              || bool_decide (last Fetched_Images = Some sep))
    with false by (by vm_compute).
Qed.

Lemma startswith_candidate (base ext : str) (k k' : nat) :
  startswith (candidate base ext k) [sep] = startswith (candidate base ext k') [sep].
Proof. unfold candidate. by destruct base. Qed.

Lemma candidate_path_inj (base ext : str) :
  Inj (=) (=) (fun k => path_join Fetched_Images (candidate base ext k)).
Proof.
  intros k k' H. rewrite !path_join_Fetched_Images in H.
  rewrite (startswith_candidate base ext k k') in H.
  assert (Hc : candidate base ext k = candidate base ext k').
  { destruct (startswith _ _); [done|].
    apply app_inv_head in H. by inversion H. }
  unfold candidate in Hc. apply app_inv_head in Hc. inversion Hc as [Hd].
  apply app_inv_tail in Hd. by apply str_of_nat_inj.
Qed.

Lemma path_join_not_dir (b : str) : path_join Fetched_Images b <> Fetched_Images.
Proof.
  rewrite path_join_Fetched_Images. destruct (startswith b [sep]) eqn:E.
  - intros ->. by vm_compute in E.
  - intros H. apply (f_equal length) in H. rewrite length_app in H.
    simpl in H. lia.
Qed.

Section Loop.

Context {rt : Runtime} (w : world).

(** The loop leaves the state alone; it ends on the given name when that
    is free, else on the first free candidate, and can only run out of
    fuel when as many candidates as it had fuel to try are all taken. *)
Lemma unique_name_spec (fuel : nat) (base ext : str) :
  forall (filename filepath : str) (counter : nat) (s s' : state)
         (o : outcome (str * str)),
  unique_name fuel base ext filename filepath counter s = (o, s') ->
  s' = s /\
  match o with
  | Val (filename', filepath') =>
      fs s !! filepath' = None
      /\ ((filename', filepath') = (filename, filepath)
          \/ (is_Some (fs s !! filepath)
              /\ exists k, (counter <= k)%nat
                 /\ filename' = candidate base ext k
                 /\ filepath' = path_join Fetched_Images filename'
                 /\ forall j, (counter <= j < k)%nat ->
                      is_Some (fs s !! path_join Fetched_Images (candidate base ext j))))
  | OutOfFuel =>
      (fuel <> O -> is_Some (fs s !! filepath))
      /\ forall j, (counter <= j < counter + (fuel - 1))%nat ->
           is_Some (fs s !! path_join Fetched_Images (candidate base ext j))
  | _ => False
  end.
Proof.
  induction fuel as [|fuel IH]; intros filename filepath counter s s' o H.
  - inversion H; subst. split; [done|]. split; [done|]. intros j Hj. lia.
  - simpl in H. unfold bind, path_exists in H.
    destruct (fs s !! filepath) as [node|] eqn:Htaken; simpl in H.
    + apply IH in H as [-> H]. split; [done|].
      destruct o as [[filename' filepath']| |e|]; try done.
      * destruct H as [Hfree H]. split; [done|]. right. split; [done|].
        destruct H as [[= -> ->]|(Hsome & k & Hk & -> & -> & Hall)].
        -- exists counter. repeat split; try done. intros j Hj. lia.
        -- exists k. repeat split; try done; [lia|].
           intros j Hj. destruct (decide (j = counter)) as [->|?]; [done|].
           apply Hall. lia.
      * destruct H as [Hfirst Hrest]. split; [done|].
        intros j Hj. destruct (decide (j = counter)) as [->|?].
        -- apply Hfirst. lia.
        -- apply Hrest. lia.
    + inversion H; subst. split; [done|]. split; [done|by left].
Qed.

(** With more fuel than there are paths the loop finds a free name. *)
Lemma unique_name_fuel (base ext filename filepath : str) (s s' : state) :
  unique_name (S (S (size (fs s)))) base ext filename filepath 1 s
  <> (OutOfFuel, s').
Proof.
  intros H. apply unique_name_spec in H as [_ [_ Hall]].
  set (f := fun k => path_join Fetched_Images (candidate base ext k)) in *.
  set (l := f <$> seq 1 (S (size (fs s)))).
  assert (Hnd : NoDup l).
  { pose proof (candidate_path_inj base ext : Inj (=) (=) f).
    apply (NoDup_fmap_2 f), NoDup_seq. }
  assert (Hsub : list_to_set l ⊆ dom (fs s)).
  { intros p Hp. apply elem_of_list_to_set, list_elem_of_fmap in Hp as (j & -> & Hj).
    apply elem_of_dom, Hall. apply elem_of_seq in Hj. lia. }
  apply subseteq_size in Hsub.
  rewrite size_list_to_set, size_dom in Hsub by done.
  unfold l in Hsub. rewrite length_fmap, length_seq in Hsub. lia.
Qed.

End Loop.

(** ** Runs of main: vocabulary *)

Definition is_print (ev : event) : Prop := exists m, ev = EvPrint m.

Definition is_write (filepath : str) (ev : event) : Prop :=
  exists chunk, ev = EvWrite filepath chunk.

(** No file is opened or written. *)
Definition quiet (t : list event) : Prop :=
  Forall (fun ev => match ev with
                    | EvOpen _ _ | EvWrite _ _ => False
                    | _ => True
                    end) t.


Definition accepted (p : prompt) (t : list event) : Prop :=
  exists ans, EvInput p (inr ans) ∈ t /\ lower ans = lit "y".

(** [main] returned, by [return] or by reaching its end. *)
Definition exits_cleanly (o : outcome unit) : Prop := o = Val tt \/ o = Returned.

(** The state [s] with the file system [fs'] and the events [t] added. *)
Definition extend (s : state) (fs' : gmap (list N) node) (t : list event) : state :=
  {| stdin := stdin s; fs := fs'; trace := trace s ++ t |}.

(** What the [except] clause that catches [e] prints. *)
Definition handler_prints (e : exn) : list event :=
  if is_ConnectionError e then [EvPrint MsgConnectionError; EvPrint MsgWisdomConnection]
  else if is_Timeout e then [EvPrint MsgTimeout; EvPrint MsgWisdomTimeout]
  else if is_HTTPError e then [EvPrint (MsgHTTPError e); EvPrint MsgWisdomHTTP]
  else if is_RequestException e then [EvPrint (MsgRequestError e); EvPrint MsgWisdomRequest]
  else if is_PermissionError e then [EvPrint MsgPermission; EvPrint MsgWisdomPermission]
  else [EvPrint (MsgUnexpected e); EvPrint MsgWisdomUnexpected].


(** The exception [e] is raised by the read of the URL. *)
Definition url_read_raises (w : world) (e : exn) : Prop :=
  match console w with
  | [] => e = EOFError
  | inl e' :: _ => e = e'
  | inr _ :: _ => False
  end.

(** The size check lets a declared size of at most 50 MiB pass in silence. *)
Definition declares {rt : Runtime} (r : response) (file_size : Z) : Prop :=
  match headers_get r (lit "content-length") with
  | None => file_size = 0
  | Some v => py_int v = Some file_size
  end.

(** The state in which the [try] block starts. *)
Definition after_url_read (w : world) (line : str) (rest : list (exn + str)) : state :=
  {| stdin := rest; fs := files w;
     trace := [EvPrint MsgWelcome; EvPrint MsgTagline;
               EvInput PromptUrl (inr line)] |}.

(** ** Worlds for closed examples *)

Definition cat_url : str := lit "https://example.com/cat.png".

Definition png_response : response :=
  {| status_code := 200;
     headers := {[ lit "content-type" := lit "image/png" ]};
     body := [inr [Byte.x89; Byte.x50]; inr []; inr [Byte.x4e]] |}.

(** [Fetched_Images/cat.png] exists; the server answers with a PNG. *)
Definition cat_world (answers : list (exn + str)) : world :=
  {| console := inr cat_url :: answers;
     files := {[ lit "Fetched_Images" := Dir;
                 lit "Fetched_Images/cat.png" := File [Byte.x00] ]};
     get_result := inr png_response;
     faults := fun _ => None;
     dir_size := 4096 |}.

(** A response with the given status, content type and content length. *)
Definition plain_response (status : Z) (content_type content_length : str) : response :=
  {| status_code := status;
     headers := {[ lit "content-type" := content_type;
                   lit "content-length" := content_length ]};
     body := [inr [Byte.x3c]] |}.

Definition fresh_world (r : response) (answers : list (exn + str)) : world :=
  {| console := inr cat_url :: answers;
     files := ∅;
     get_result := inr r;
     faults := fun _ => None;
     dir_size := 4096 |}.

Definition offline_world : world :=
  {| console := [inr cat_url];
     files := ∅;
     get_result := inl ConnectionError;
     faults := fun _ => None;
     dir_size := 4096 |}.

(** ** Runs of main: the blocks *)

(** Standard output takes every line. *)
Definition stdout_ok {rt : Runtime} : Prop :=
  forall t m, print_raises t m = None.

Lemma extend_nil (s : state) : s = extend s (fs s) [].
Proof. destruct s. unfold extend. simpl. by rewrite app_nil_r. Qed.

Lemma handler_prints_print (e : exn) : Forall is_print (handler_prints e).
Proof. destruct e; repeat constructor; by eexists. Qed.

Section Blocks.

Context {rt : Runtime} (w : world).

Lemma print_ok (m : message) (s : state) :
  stdout_ok -> print m s = (Val tt, extend s (fs s) [EvPrint m]).
Proof. intros Hok. unfold print. by rewrite Hok. Qed.

(** An [except] clause prints its two lines and ends normally, unless one
    of the two [print] calls raises; an exception that does not derive
    from [Exception] passes. *)
Lemma handlers_cases (e : exn) (s : state) :
  exists o t,
    match handlers e with
    | Some h => h s
    | None => (Raised e, s)
    end = (o, extend s (fs s) t)
    /\ Forall is_print t
    /\ match o with
       | Val _ => is_Exception e = true /\ t = handler_prints e
       | Raised e' =>
           (is_Exception e = false /\ e' = e /\ t = [])
           \/ (is_Exception e = true
               /\ exists m, EvPrint m ∈ handler_prints e
                    /\ print_raises (trace s ++ t) m = Some e')
       | _ => False
       end.
Proof.
  destruct e; cbn [handlers is_ConnectionError is_Timeout is_HTTPError
                   is_RequestException is_PermissionError is_Exception
                   handler_prints];
    try (exists (Raised KeyboardInterrupt), []; rewrite <- extend_nil;
         split; [done|]; split; [constructor|]; by left);
    unfold bind, print;
    (destruct (print_raises (trace s) _) as [e1|] eqn:H1;
     [ exists (Raised e1), []; rewrite <- extend_nil;
       split; [done|]; split; [constructor|]; right; split; [done|];
       eexists; split; [apply list_elem_of_here|]; by rewrite app_nil_r
     | unfold emit; cbn [trace stdin fs];
       destruct (print_raises (trace s ++ [_]) _) as [e2|] eqn:H2;
       [ eexists (Raised e2), [_]; split; [reflexivity|];
         split; [repeat constructor; by eexists|]; right; split; [done|];
         eexists; split; [apply list_elem_of_further, list_elem_of_here|exact H2]
       | eexists (Val tt), [_; _]; unfold extend; rewrite <- app_assoc;
         split; [reflexivity|];
         split; [repeat constructor; by eexists|]; by split ] ]).
Qed.

Lemma handlers_spec (e : exn) (s : state) :
  stdout_ok ->
  match handlers e with
  | Some h => h s
  | None => (Raised e, s)
  end
  = if is_Exception e then (Val tt, extend s (fs s) (handler_prints e))
    else (Raised e, s).
Proof.
  intros Hok.
  destruct e; unfold handlers, handler_prints, bind, print, emit, extend; simpl;
    rewrite ?Hok; simpl; rewrite ?Hok; by rewrite <- ?app_assoc.
Qed.

Lemma write_chunks_spec (filepath : str) (chunks : list (exn + bytes)) :
  forall s o s', write_chunks w filepath chunks s = (o, s') ->
  exists fs' t,
    s' = extend s fs' t
    /\ Forall (is_write filepath) t
    /\ match o with Val _ | Raised _ => True | _ => False end.
Proof.
  induction chunks as [|[e|chunk] rest IH]; intros s o s' H; simpl in H.
  - inversion H; subst. exists (fs s'), []. by rewrite <- extend_nil.
  - inversion H; subst. exists (fs s'), []. by rewrite <- extend_nil.
  - unfold bind in H. case_bool_decide.
    + simpl in H. by apply IH in H.
    + unfold write in H. destruct (faults w StepWrite) as [e|].
      * inversion H; subst. exists (fs s'), []. by rewrite <- extend_nil.
      * unfold bind, emit, set_fs in H. simpl in H.
        apply IH in H as (fs' & t & -> & Hall & Ho). unfold extend. simpl.
        exists fs', (EvWrite filepath chunk :: t). rewrite <- app_assoc.
        split; [done|]. split; [|done]. constructor; [by eexists|done].
Qed.

(** The report only prints; it ends normally or with the exception of
    [getsize] or of a [print]. *)
Lemma report_spec (filename filepath : str) (file_size : Z) (s s' : state)
    (o : outcome unit) :
  report w filename filepath file_size s = (o, s') ->
  exists t,
    s' = extend s (fs s) t
    /\ Forall is_print t
    /\ (o = Val tt \/ exists e, o = Raised e).
Proof.
  destruct s as [input m t0].
  unfold report, getsize, bind, print, emit, ret, raise, extend. intros H.
  repeat match type of H with
  | context [match ?x with _ => _ end] =>
      lazymatch x with
      | context [match _ with _ => _ end] => fail
      | _ => destruct x eqn:?
      end
  end; cbn [trace stdin fs] in H; inversion H; subst; cbn [trace stdin fs];
  rewrite <- ?app_assoc; cbn [app];
  first [ exists []; rewrite app_nil_r;
          split; [reflexivity|]; split; [constructor|]; eauto
        | eexists; split; [reflexivity|];
          split; [repeat constructor; by eexists|]; eauto ].
Qed.

Lemma derive_filename_cases (url content_type : str) (s : state) :
  derive_filename url content_type s = (Raised ValueError, s)
  \/ exists filename,
       derive_filename url content_type s = (Val filename, s)
       /\ exists raw, raw <> [] /\ filename = sanitize_filename raw.
Proof.
  unfold derive_filename. destruct (urlparse_path url) as [path|]; [right|by left].
  eexists. split; [reflexivity|]. eexists. split; [|reflexivity].
  assert (Hsyn : forall extension, synthesized url extension <> []).
  { intros extension E. apply (f_equal length) in E. unfold synthesized in E.
    rewrite length_app in E. discriminate E. }
  destruct (bool_decide (basename path = [])) eqn:Hb; simpl.
  - apply Hsyn.
  - destruct (negb (contains extsep (basename path))).
    + apply Hsyn.
    + by apply bool_decide_eq_false in Hb.
Qed.

End Blocks.

(** ** Runs of main: case analysis *)

(** Unfold the blocks of [main] in [H]. *)
Ltac exec_in H :=
  cbv beta iota zeta delta
    [main main_try prepare download check_image_type
     resolve_duplicate check_size save makedirs requests_get
     raise_for_status open_wb int_of_header try_except
     bind ret raise return_ out_of_fuel emit print input path_exists set_fs
     present negb initial extend stdin fs trace fst snd] in H.

(** One step of the run in [H]: use what is known of the next test, or
    split on it; the loops, the report and the [except] clauses go by their
    lemmas. Where standard output is known to take every line, no [print]
    raises. *)
Ltac step_in H :=
  match type of H with
  | context [print_raises ?t ?m] =>
      match goal with Hok : stdout_ok |- _ => rewrite (Hok t m) in H end
  | context [match handlers ?e with Some h => h ?s | None => _ end] =>
      first
        [ match goal with
          | Hok : stdout_ok |- _ => rewrite (handlers_spec e s Hok) in H
          end;
          destruct (is_Exception e) eqn:?
        | let o := fresh "o" in let t := fresh "t" in let Hh := fresh "Hh" in
          destruct (handlers_cases e s) as (o & t & Hh & ?Hprints & ?Hcaught);
          rewrite Hh in H; clear Hh ]
  | context [derive_filename ?u ?ct ?s] =>
      let Hd := fresh "Hd" in
      destruct (derive_filename_cases u ct s) as [Hd|(?filename & Hd & ?Hraw)];
      rewrite Hd in H; clear Hd
  | context [unique_name ?f ?b ?e ?fn ?fp ?c ?s] =>
      let Hu := fresh "Hu" in let o := fresh "o" in let s' := fresh "s" in
      destruct (unique_name f b e fn fp c s) as [o s'] eqn:Hu;
      let Hs := fresh "Hspec" in
      pose proof (unique_name_spec f b e fn fp c s s' o Hu) as [-> Hs];
      cbn [fs stdin trace] in Hs;
      destruct o as [[? ?]| | |];
      [ destruct Hs as [?Hfree [[= -> ->]|(?Htaken & ?k & ?Hk & -> & -> & ?Hall)]];
        [exfalso; congruence|]
      | destruct Hs | destruct Hs
      | exfalso; exact (unique_name_fuel _ _ _ _ _ _ Hu) ];
      clear Hu
  | context [write_chunks ?w ?fp ?ch ?s] =>
      let Hw := fresh "Hw" in let o := fresh "o" in let s' := fresh "s" in
      destruct (write_chunks w fp ch s) as [o s'] eqn:Hw;
      apply write_chunks_spec in Hw as (?fs' & ?t & -> & ? & ?);
      destruct o as [[]| | |]; try done
  | context [report ?w ?fn ?fp ?z ?s] =>
      let Hr := fresh "Hr" in let o := fresh "o" in let s' := fresh "s" in
      destruct (report w fn fp z s) as [o s'] eqn:Hr;
      apply report_spec in Hr as (?t & -> & ? & [->|(?e & ->)])
  | context [match ?x with _ => _ end] =>
      lazymatch x with
      | context [match _ with _ => _ end] => fail
      | _ =>
          first
            [ match goal with Hx : x = _ |- _ => rewrite Hx in H end
            | destruct x eqn:? ]
      end
  end; exec_in H.

Ltac run_cases H := exec_in H; repeat (progress step_in H).

(** At the end of a path [H] equates the result with what was computed. *)
Ltac leaf H :=
  injection H as <- <-; cbn [trace fs stdin fst snd app] in *.

(** The cases of [H : ev ∈ t] for the trace [t] of one path. *)
Ltac mem_cases H :=
  first
    [ apply elem_of_cons in H as [H|H]; [try discriminate H|mem_cases H]
    | apply elem_of_app in H as [H|H]; [mem_cases H|mem_cases H]
    | apply elem_of_nil in H; destruct H
    | match type of H with
      | _ ∈ handler_prints ?e =>
          let c := fresh in
          apply (proj1 (Forall_forall _ _) (handler_prints_print e)) in H as [c H];
          try discriminate H
      | _ ∈ ?t =>
          match goal with
          | Hall : Forall _ t |- _ =>
              let c := fresh in
              apply (proj1 (Forall_forall _ _) Hall) in H as [c H];
              try discriminate H
          end
      end ].

Ltac mem_goal :=
  first
    [ apply list_elem_of_here
    | apply list_elem_of_further; mem_goal
    | apply elem_of_app; right; mem_goal
    | apply elem_of_app; left; mem_goal ].

Ltac fix_lookup :=
  repeat match goal with
  | H : context [<[Fetched_Images:=_]> _ !! path_join Fetched_Images _] |- _ =>
      rewrite lookup_insert_ne in H by (apply not_eq_sym, path_join_not_dir)
  end.

Ltac answer_facts :=
  repeat match goal with
  | H : str_eqb _ _ = true |- _ => apply bool_decide_eq_true in H
  | H : str_eqb _ _ = false |- _ => apply bool_decide_eq_false in H
  end.

Ltac use_lookup :=
  match goal with
  | H : ?m !! ?p = _ |- context [?m !! ?p] => rewrite H
  end.

Ltac solve_quiet :=
  unfold quiet;
  repeat (apply Forall_cons; split; [exact I|]);
  first
    [ apply Forall_nil_2
    | match goal with
      | |- Forall _ (handler_prints ?e) =>
          apply (Forall_impl _ _ _ (handler_prints_print e));
          intros ? [? ->]; exact I
      | Hp : Forall is_print ?t |- Forall _ ?t =>
          apply (Forall_impl _ _ _ Hp); intros ? [? ->]; exact I
      end ].

(** ** Runs of main: exceptions *)

Section Runs.

Context {rt : Runtime} (w : world).

(** With the two title lines printed and a non-empty URL read, the run is
    the [try] statement started in [after_url_read]. *)
Lemma run_try (line : str) (rest : list (exn + str)) :
  print_raises [] MsgWelcome = None ->
  print_raises [EvPrint MsgWelcome] MsgTagline = None ->
  console w = inr line :: rest -> strip line <> [] ->
  run w = try_except (main_try w (strip line)) handlers (after_url_read w line rest).
Proof.
  intros H1 H2 Hc Hs. unfold run, main, bind, print, emit, input, initial.
  cbn [trace stdin fs]. rewrite H1. cbn [trace stdin fs app]. rewrite H2.
  cbn [trace stdin fs app]. rewrite Hc. cbn [trace stdin fs app].
  by rewrite bool_decide_eq_false_2.
Qed.

(** What the [except] clauses do with [e], print by print. *)
Lemma handlers_run (e : exn) (s : state) :
  match handlers e with
  | Some h => h s
  | None => (Raised e, s)
  end
  = if is_Exception e then
      match handler_prints e with
      | [EvPrint m1; EvPrint m2] =>
          match print_raises (trace s) m1 with
          | Some e' => (Raised e', s)
          | None =>
              match print_raises (trace s ++ [EvPrint m1]) m2 with
              | Some e' => (Raised e', extend s (fs s) [EvPrint m1])
              | None => (Val tt, extend s (fs s) (handler_prints e))
              end
          end
      | _ => (Raised e, s)
      end
    else (Raised e, s).
Proof.
  destruct e; cbn [handlers is_ConnectionError is_Timeout is_HTTPError
                   is_RequestException is_PermissionError is_Exception
                   handler_prints]; try reflexivity;
    unfold bind, print, emit, extend; cbn [trace stdin fs];
    destruct (print_raises (trace s) _); try reflexivity;
    cbn [trace stdin fs];
    destruct (print_raises (trace s ++ [_]) _); try reflexivity;
    by rewrite <- app_assoc.
Qed.

Lemma handler_prints_two (e : exn) :
  exists m1 m2, handler_prints e = [EvPrint m1; EvPrint m2].
Proof. destruct e; by eexists _, _. Qed.

Lemma prepare_response (url : str) (s s1 : state) (x : response * (str * str)) :
  prepare w url s = (Val x, s1) -> get_result w = inr (fst x).
Proof.
  intros H. run_cases H. all: try discriminate H. all: by inversion H; subst.
Qed.

(** C2, as amended: an exception leaves [main] only when the read of the
    URL raises it (that read comes before the [try]), when it does not
    derive from [Exception], or when [print] raises it for a line printed
    outside the [try] (the two title lines, the line for a blank URL) or
    inside an [except] clause; the loop never runs out of fuel. Each of
    these does leave [main]: the exception of a title line, of the read of
    the URL, of the line for a blank URL; and of what the body of the [try]
    raises, an exception that does not derive from [Exception] passes the
    clauses, while one that does is caught by the first clause that
    matches: the clause prints its two lines and [main] ends normally,
    unless one of the two [print] calls raises, and then that exception
    leaves [main]. *)
Theorem main_exceptions :
  match fst (run w) with
  | Raised e =>
      url_read_raises w e
      \/ is_Exception e = false
      \/ exists m,
           print_raises (trace (snd (run w))) m = Some e
           /\ (m = MsgWelcome \/ m = MsgTagline \/ m = MsgNoUrl
               \/ exists e', EvPrint m ∈ handler_prints e')
  | OutOfFuel => False
  | _ => True
  end
  /\ (forall e, print_raises [] MsgWelcome = Some e -> fst (run w) = Raised e)
  /\ (forall e,
        print_raises [] MsgWelcome = None ->
        print_raises [EvPrint MsgWelcome] MsgTagline = Some e ->
        fst (run w) = Raised e)
  /\ (forall e,
        print_raises [] MsgWelcome = None ->
        print_raises [EvPrint MsgWelcome] MsgTagline = None ->
        url_read_raises w e ->
        fst (run w) = Raised e)
  /\ (forall e line rest,
        print_raises [] MsgWelcome = None ->
        print_raises [EvPrint MsgWelcome] MsgTagline = None ->
        console w = inr line :: rest ->
        strip line = [] ->
        print_raises (trace (after_url_read w line rest)) MsgNoUrl = Some e ->
        fst (run w) = Raised e)
  /\ (forall url s s' e,
        main_try w url s = (Raised e, s') ->
        if is_Exception e then
          exists m1 m2,
            handler_prints e = [EvPrint m1; EvPrint m2]
            /\ try_except (main_try w url) handlers s
               = match print_raises (trace s') m1 with
                 | Some e' => (Raised e', s')
                 | None =>
                     match print_raises (trace s' ++ [EvPrint m1]) m2 with
                     | Some e' => (Raised e', extend s' (fs s') [EvPrint m1])
                     | None => (Val tt, extend s' (fs s') (handler_prints e))
                     end
                 end
        else try_except (main_try w url) handlers s = (Raised e, s')).
Proof.
  split; [|split; [|split; [|split; [|split]]]].
  - destruct (run w) as [o s] eqn:H. unfold run in H. unfold url_read_raises. simpl.
    run_cases H.
    all: leaf H.
    all: try exact I.
    all: try (left; reflexivity).
    all: try (right; right; eexists; split; [eassumption|]; tauto).
    all: match goal with
         | Hc : match ?o with _ => _ end |- _ =>
             destruct o as [[]| |e'|];
             [ exact I | destruct Hc
             | destruct Hc as [(Hne & -> & ->)|(He & m & Hm & Hr)];
               [ right; left; exact Hne
               | right; right; exists m; split;
                 [exact Hr|right; right; right; by eexists] ]
             | destruct Hc ]
         end.
  - intros e H1. unfold run, main, bind, print, initial. cbn [trace]. by rewrite H1.
  - intros e H1 H2. unfold run, main, bind, print, emit, initial.
    cbn [trace stdin fs]. rewrite H1. cbn [trace stdin fs app]. by rewrite H2.
  - intros e H1 H2. unfold url_read_raises, run, main, bind, print, emit, input, initial.
    cbn [trace stdin fs]. rewrite H1. cbn [trace stdin fs app]. rewrite H2.
    cbn [trace stdin fs app].
    destruct (console w) as [|[e'|line] rest]; simpl; intros He;
      try done; by subst.
  - intros e line rest H1 H2 Hc Hs H3.
    unfold run, main, bind, print, emit, input, initial.
    cbn [trace stdin fs]. rewrite H1. cbn [trace stdin fs app]. rewrite H2.
    cbn [trace stdin fs app]. rewrite Hc. cbn [trace stdin fs app].
    rewrite Hs. rewrite bool_decide_eq_true_2 by done.
    unfold after_url_read in H3. cbn [trace stdin fs app] in *. by rewrite H3.
  - intros url s s' e H. unfold try_except. rewrite H, handlers_run.
    destruct (is_Exception e); [|reflexivity].
    destruct (handler_prints_two e) as (m1 & m2 & Hm).
    exists m1, m2. split; [exact Hm|]. by rewrite Hm.
Qed.

(** ** Runs of main: the file that is opened *)

(** C4, as amended: the file that is opened for writing exists at that
    moment exactly when the overwrite confirmation was accepted; without a
    collision, and after a declined overwrite, it does not exist. Whether it
    exists is what the file system held for that path when the run began. *)
Theorem open_existing_iff_overwrite (p : str) (existed : bool) :
  EvOpen p existed ∈ trace (snd (run w)) ->
  (existed = true <-> accepted PromptOverwrite (trace (snd (run w))))
  /\ existed = present (files w !! p).
Proof.
  destruct (run w) as [o s] eqn:H. unfold run in H. simpl. intros Hin.
  run_cases H.
  all: leaf H.
  all: mem_cases Hin.
  all: injection Hin as -> ->.
  all: fix_lookup; answer_facts.
  all: try congruence.
  all: (split; [split; [intros ?|intros (ans & Ha & Hy)]|]);
    try done; try (use_lookup; reflexivity).
  all: try (eexists; split; [mem_goal|eassumption]).
  all: mem_cases Ha; simplify_eq.
Qed.

(** ** Runs of main: the declared size *)

(** C9, as amended: when the content-length of the response is not an
    integer literal, no run opens or writes a file, and the only path the
    run can create is the directory; a run that gets as far as the size
    check ends there: [int] raises [ValueError] and the catch-all clause
    takes it; where standard output takes every line, the clause prints
    its two lines and [main] ends normally. *)
Theorem bad_content_length (r : response) (v : str) :
  get_result w = inr r ->
  headers_get r (lit "content-length") = Some v ->
  py_int v = None ->
  quiet (trace (snd (run w)))
  /\ (forall p, p <> Fetched_Images -> fs (snd (run w)) !! p = files w !! p)
  /\ (forall line rest x s1,
        console w = inr line :: rest ->
        strip line <> [] ->
        prepare w (strip line) (after_url_read w line rest) = (Val x, s1) ->
        try_except (main_try w (strip line)) handlers (after_url_read w line rest)
        = (print (MsgUnexpected ValueError) ;; print MsgWisdomUnexpected) s1
        /\ (stdout_ok ->
            run w = (Val tt, extend s1 (fs s1)
                               [EvPrint (MsgUnexpected ValueError);
                                EvPrint MsgWisdomUnexpected]))).
Proof.
  intros Hget Hhdr Hint. apply and_assoc. split.
  - destruct (run w) as [o s] eqn:H. unfold run in H. simpl.
    run_cases H.
    all: leaf H.
    all: (split; [solve_quiet|]).
    all: intros p Hp; rewrite ?lookup_insert_ne by (intros Heq; by apply Hp);
      reflexivity.
  - intros line rest x s1 Hc Hs Hprep.
    pose proof (prepare_response _ _ _ _ Hprep) as Hr.
    rewrite Hget in Hr. injection Hr as Hr.
    assert (Htry : try_except (main_try w (strip line)) handlers
                     (after_url_read w line rest)
                   = (print (MsgUnexpected ValueError) ;; print MsgWisdomUnexpected) s1).
    { unfold try_except, main_try. unfold bind at 1. rewrite Hprep.
      unfold download, check_size, int_of_header. unfold bind at 1 2.
      rewrite <- Hr, Hhdr, Hint. reflexivity. }
    split; [exact Htry|]. intros Hok.
    rewrite (run_try line rest (Hok _ _) (Hok _ _) Hc Hs), Htry.
    unfold bind. rewrite !print_ok by done. cbn [fs trace stdin extend].
    unfold extend. cbn [fs trace stdin]. by rewrite <- app_assoc.
Qed.

End Runs.

(** ** Runs of main: the confirmations *)

Section Prompts.

Context {rt : Runtime} (w : world).

(** The run, up to the [try] statement, where standard output takes every
    line. *)
Lemma run_top :
  stdout_ok ->
  run w
  = match console w with
    | [] =>
        (Raised EOFError,
         {| stdin := []; fs := files w;
            trace := [EvPrint MsgWelcome; EvPrint MsgTagline;
                      EvInput PromptUrl (inl EOFError)] |})
    | inl e :: rest =>
        (Raised e,
         {| stdin := rest; fs := files w;
            trace := [EvPrint MsgWelcome; EvPrint MsgTagline;
                      EvInput PromptUrl (inl e)] |})
    | inr line :: rest =>
        if bool_decide (strip line = []) then
          (Returned,
           {| stdin := rest; fs := files w;
              trace := [EvPrint MsgWelcome; EvPrint MsgTagline;
                        EvInput PromptUrl (inr line); EvPrint MsgNoUrl] |})
        else try_except (main_try w (strip line)) handlers
               (after_url_read w line rest)
    end.
Proof.
  intros Hok.
  unfold run, main, bind, print, emit, input, initial, return_.
  cbn [trace stdin fs]. rewrite Hok. cbn [trace stdin fs app]. rewrite Hok.
  cbn [trace stdin fs app].
  destruct (console w) as [|[e|line] rest]; cbn [trace stdin fs app]; try done.
  destruct (bool_decide (strip line = [])); [|done].
  rewrite Hok. reflexivity.
Qed.





(** ** Runs of main: the image-type check *)

(** C10: the check compares the header value with the lower-case prefix
    [image/] as it is. For every value without that prefix the check prints
    the warning and asks for the confirmation, first thing (the warning
    being a line that standard output takes); so does every run that gets
    a response without an error status, where standard output takes every
    line. The extension resolver, which lowers its argument, still resolves
    such a value when its lower-case form is a key. *)
Theorem image_type_check_case_sensitive (content_type : str) :
  startswith content_type (lit "image/") = false ->
  (forall s,
      print_raises (trace s) (MsgNotImage content_type) = None ->
      exists answer rest,
        trace (snd (check_image_type content_type s))
        = trace s ++ EvPrint (MsgNotImage content_type)
                     :: EvInput PromptContinueAnyway answer :: rest)
  /\ (forall r line rest,
        stdout_ok ->
        console w = inr line :: rest ->
        strip line <> [] ->
        faults w StepMakedirs = None ->
        (forall c, files w !! Fetched_Images <> Some (File c)) ->
        get_result w = inr r ->
        (400 <=? status_code r) && (status_code r <? 600) = false ->
        default [] (headers_get r (lit "content-type")) = content_type ->
        EvPrint (MsgNotImage content_type) ∈ trace (snd (run w))
        /\ exists answer,
             EvInput PromptContinueAnyway answer ∈ trace (snd (run w)))
  /\ (lower content_type ∈ extension_keys ->
      is_Some (get_extension_from_content_type content_type)).
Proof.
  intros Hct. split; [|split].
  - intros s Hprint. unfold check_image_type. rewrite Hct.
    unfold bind, print, emit, input, return_, ret. simpl. rewrite Hprint.
    destruct (stdin s) as [|[e|line] rest]; simpl;
      [| |destruct (str_eqb _ _); simpl;
          [|destruct (print_raises _ MsgCancelledType); simpl]];
      rewrite <- ?app_assoc; simpl; by eexists _, _.
  - intros r line rest Hok Hc Hs Hmk Hdir Hget Hst <-.
    destruct (run w) as [o s] eqn:H. unfold run in H. simpl.
    apply (bool_decide_eq_false_2 _) in Hs.
    run_cases H.
    all: try (exfalso; eapply Hdir; reflexivity).
    all: leaf H.
    all: (split; [mem_goal|eexists; mem_goal]).
  - intros Hk. unfold get_extension_from_content_type, extensions.
    rewrite extension_keys_items in Hk.
    apply list_elem_of_fmap in Hk as ([k e] & Hk & Hin). simpl in Hk.
    exists e. apply elem_of_list_to_map_1; [|by rewrite Hk].
    apply (bool_decide_unpack _). by vm_compute.
Qed.

End Prompts.

(** ** Closed runs *)

Lemma simple_stdout_ok : @stdout_ok simple_runtime.
Proof. intros t m. reflexivity. Defined.

Lemma main_exceptions_witness :
  fst (@try_except unit (@main_try simple_runtime offline_world cat_url)
         (@handlers simple_runtime) (after_url_read offline_world cat_url []))
  = Val tt.
Proof.
  pose proof (proj2 (proj2 (proj2 (proj2 (proj2
                (@main_exceptions simple_runtime offline_world)))))
                cat_url (after_url_read offline_world cat_url [])
                (snd (@main_try simple_runtime offline_world cat_url
                        (after_url_read offline_world cat_url [])))
                ConnectionError) as H.
  cbn [is_Exception] in H.
  destruct H as (m1 & m2 & Hm & ->); [by vm_compute|].
  injection Hm as <- <-. reflexivity.
Defined.

(** C2 as the specification words it fails: with the console at its end
    the read of the URL raises [EOFError], and [main] lets it through. *)
Lemma main_propagates_eof :
  fst (@run simple_runtime silent_world) = Raised EOFError
  /\ ~ exits_cleanly (fst (@run simple_runtime silent_world)).
Proof. split; [reflexivity|]. by intros [H|H]. Qed.

Definition is_ascii (s : str) : bool := forallb (fun c => (c <? 128)%N) s.

(** The lines of [main] that are ASCII throughout: those without a cross,
    a warning sign or a check mark, and with ASCII text for the name they
    show. *)
Definition ascii_line (m : message) : bool :=
  match m with
  | MsgWelcome | MsgTagline | MsgConnecting | MsgCancelledType
  | MsgCancelledLarge | MsgStrengthened | MsgThanks
  | MsgWisdomConnection | MsgWisdomTimeout | MsgWisdomHTTP | MsgWisdomRequest
  | MsgWisdomPermission | MsgWisdomUnexpected => true
  | MsgSavingAs filename => is_ascii filename
  | _ => false
  end.

(** Standard output encodes ASCII only. *)
Definition ascii_runtime : Runtime :=
  {| py_hash := simple_hash; urlparse_path := simple_path; py_int := simple_int;
     print_raises := fun _ m => if ascii_line m then None
                                else Some UnicodeEncodeError |}.

(** On such a standard output a failed request ends with an exception
    that leaves [main]: the clause that catches [ConnectionError] cannot
    print its first line. *)
Lemma main_propagates_encode_error :
  @run ascii_runtime offline_world
  = (Raised UnicodeEncodeError,
     {| stdin := []; fs := {[ Fetched_Images := Dir ]};
        trace := [EvPrint MsgWelcome; EvPrint MsgTagline;
                  EvInput PromptUrl (inr cat_url); EvMakedirs Fetched_Images;
                  EvPrint MsgConnecting; EvGet cat_url] |}).
Proof. by vm_compute. Qed.




Lemma open_existing_iff_overwrite_witness :
  (false = true
   <-> accepted PromptOverwrite
         (trace (snd (@run simple_runtime (cat_world [inr (lit "n")])))))
  /\ false = present (files (cat_world [inr (lit "n")])
                        !! lit "Fetched_Images/cat_1.png").
Proof.
  apply (@open_existing_iff_overwrite simple_runtime (cat_world [inr (lit "n")])).
  vm_compute. mem_goal.
Defined.

(** C4 as the specification words it fails: the overwrite confirmation is
    accepted, and the file that is opened exists. *)
Lemma overwrite_accepted_opens_existing :
  EvOpen (lit "Fetched_Images/cat.png") true
    ∈ trace (snd (@run simple_runtime (cat_world [inr (lit "Y")])))
  /\ is_Some (files (cat_world [inr (lit "Y")]) !! lit "Fetched_Images/cat.png").
Proof.
  split; [vm_compute; mem_goal|].
  apply (bool_decide_unpack _). by vm_compute.
Qed.

Definition bad_length_world (status : Z) : world :=
  fresh_world (plain_response status (lit "image/png") (lit "abc")) [].

Lemma bad_content_length_witness :
  quiet (trace (snd (@run simple_runtime (bad_length_world 200)))).
Proof.
  apply (@bad_content_length simple_runtime (bad_length_world 200)
           (plain_response 200 (lit "image/png") (lit "abc")) (lit "abc"));
    by vm_compute.
Defined.

(** C9 as the specification words it fails: the response carries a
    content-length that is no integer, with status 404; the run ends in the
    clause for HTTP errors, and the catch-all clause prints nothing. *)
Lemma bad_content_length_http_error :
  headers_get (plain_response 404 (lit "image/png") (lit "abc")) (lit "content-length")
  = Some (lit "abc")
  /\ @py_int simple_runtime (lit "abc") = None
  /\ EvPrint (MsgHTTPError HTTPError)
       ∈ trace (snd (@run simple_runtime (bad_length_world 404)))
  /\ EvPrint (MsgUnexpected ValueError)
       ∉ trace (snd (@run simple_runtime (bad_length_world 404))).
Proof.
  split; [by vm_compute|]. split; [reflexivity|]. split.
  - vm_compute. mem_goal.
  - intros H. vm_compute in H. mem_cases H.
Qed.

Definition mixed_case_world : world :=
  fresh_world (plain_response 200 (lit "Image/PNG") (lit "3")) [inr (lit "y")].

Lemma image_type_check_case_sensitive_witness :
  (EvPrint (MsgNotImage (lit "Image/PNG"))
     ∈ trace (snd (@run simple_runtime mixed_case_world))
   /\ exists answer,
        EvInput PromptContinueAnyway answer
          ∈ trace (snd (@run simple_runtime mixed_case_world)))
  /\ is_Some (get_extension_from_content_type (lit "Image/PNG")).
Proof.
  destruct (@image_type_check_case_sensitive simple_runtime mixed_case_world
              (lit "Image/PNG") eq_refl) as (_ & Hrun & Hext).
  split.
  - apply (Hrun (plain_response 200 (lit "Image/PNG") (lit "3")) cat_url
             [inr (lit "y")] simple_stdout_ok);
      try reflexivity; try (by vm_compute).
  - apply Hext. apply (bool_decide_unpack _). by vm_compute.
Defined.

(** * Further properties of the code *)

(** ** sanitize_filename: lengths *)

Lemma sanitize_filename_len_min (filename : str) :
  Z.min (len filename) 255 <= len (sanitize_filename filename).
Proof.
  unfold sanitize_filename. rewrite len_replace_dangerous.
  destruct (Z.ltb_spec 255 (len filename)) as [Hlong|Hshort].
  - pose proof (splitext_app (replace_dangerous filename)) as Happ.
    destruct (splitext _) as [name ext]. simpl in Happ.
    apply (f_equal len) in Happ. rewrite len_replace_dangerous, len_app in Happ.
    rewrite len_app. pose proof (len_nonneg name). pose proof (len_nonneg ext).
    pose proof (len_nonneg (slice_to name (255 - len ext))).
    destruct (Z.le_gt_cases (len ext) 255) as [Hext|Hext].
    + rewrite len_slice_to by lia. lia.
    + lia.
  - rewrite len_replace_dangerous. lia.
Qed.

(** X1: [sanitize_filename] never lengthens a name, keeps the length of a
    name of at most 255 characters, and never cuts a longer one below 255:
    a non-empty name stays non-empty. *)
Theorem sanitize_filename_length (filename : str) :
  Z.min (len filename) 255 <= len (sanitize_filename filename) <= len filename.
Proof.
  split; [apply sanitize_filename_len_min|].
  unfold sanitize_filename. rewrite len_replace_dangerous.
  destruct (Z.ltb_spec 255 (len filename)) as [Hlong|Hshort].
  - pose proof (splitext_app (replace_dangerous filename)) as Happ.
    destruct (splitext _) as [name ext]. simpl in Happ.
    apply (f_equal len) in Happ. rewrite len_replace_dangerous, len_app in Happ.
    rewrite len_app.
    assert (Hs : len (slice_to name (255 - len ext)) <= len name).
    { unfold slice_to, len. rewrite length_take. lia. }
    lia.
  - rewrite len_replace_dangerous. lia.
Qed.

(** ** get_extension_from_content_type: case and parameters *)

Lemma lower_char_idempotent (c : char) : lower_char (lower_char c) = lower_char c.
Proof.
  unfold lower_char.
  repeat match goal with
  | |- context [(?a <=? ?b)%N] => destruct (N.leb_spec a b)
  | |- context [(?a =? ?b)%N] => destruct (N.eqb_spec a b)
  end; simpl in *; try reflexivity; lia.
Qed.

Lemma lower_idempotent (s : str) : lower (lower s) = lower s.
Proof.
  unfold lower. rewrite List.map_map. apply List.map_ext, lower_char_idempotent.
Qed.

(** X2: the resolver is case-insensitive: two content types with the same
    lower-case form get the same answer, and a content type gets the
    answer of its lower-case form. *)
Theorem get_extension_case_insensitive (a b : str) :
  (lower a = lower b ->
   get_extension_from_content_type a = get_extension_from_content_type b)
  /\ get_extension_from_content_type (lower a) = get_extension_from_content_type a.
Proof.
  unfold get_extension_from_content_type. split.
  - by intros ->.
  - by rewrite lower_idempotent.
Qed.

Lemma get_extension_case_insensitive_witness :
  get_extension_from_content_type (lit "IMAGE/Png")
  = get_extension_from_content_type (lit "image/PNG").
Proof.
  exact (proj1 (get_extension_case_insensitive (lit "IMAGE/Png") (lit "image/PNG"))
           eq_refl).
Defined.

(** X3: the table is matched against the whole header value: a content
    type that carries a parameter (it contains a semicolon), such as
    [image/png; charset=binary], has no mapping, and the caller falls back
    to [.jpg]. *)
Theorem get_extension_with_parameter (content_type : str) :
  59%N ∈ content_type ->
  get_extension_from_content_type content_type = None
  /\ py_or (get_extension_from_content_type content_type) (lit ".jpg") = lit ".jpg".
Proof.
  intros Hsemi.
  assert (Hnone : get_extension_from_content_type content_type = None).
  { apply not_elem_of_list_to_map_1. rewrite <- extension_keys_items.
    intros Hkey.
    assert (Hlow : 59%N ∈ lower content_type).
    { apply list_elem_of_In, List.in_map_iff. exists 59%N.
      split; [reflexivity|by apply list_elem_of_In]. }
    assert (Hkeys : Forall (fun k => 59%N ∉ k) extension_keys).
    { apply (bool_decide_unpack _). by vm_compute. }
    rewrite Forall_forall in Hkeys. exact (Hkeys _ Hkey Hlow). }
  by rewrite Hnone.
Qed.

Lemma get_extension_with_parameter_witness :
  get_extension_from_content_type (lit "image/png; charset=binary") = None
  /\ py_or (get_extension_from_content_type (lit "image/png; charset=binary"))
       (lit ".jpg") = lit ".jpg".
Proof.
  apply (get_extension_with_parameter (lit "image/png; charset=binary")).
  apply (bool_decide_unpack _). by vm_compute.
Defined.

(** ** derive_filename: a name taken from the URL *)

Section UrlName.

Context {rt : Runtime}.

(** X4: when the last path segment of the URL holds a dot, the file name
    is that segment, sanitized; neither the content type nor the hash of
    the URL plays a part. *)
Theorem derive_filename_from_url (url content_type path : str) (s : state) :
  urlparse_path url = Some path ->
  extsep ∈ basename path ->
  derive_filename url content_type s
  = (Val (sanitize_filename (basename path)), s).
Proof.
  intros Hpath Hdot. unfold derive_filename. rewrite Hpath.
  assert (Hne : basename path <> []) by (intros E; rewrite E in Hdot; inversion Hdot).
  rewrite (bool_decide_eq_false_2 _ Hne). unfold contains.
  by rewrite (bool_decide_eq_true_2 _ Hdot).
Qed.

End UrlName.

Lemma derive_filename_from_url_witness :
  @derive_filename simple_runtime cat_url (lit "text/html") (initial silent_world)
  = (Val (lit "cat.png"), initial silent_world).
Proof.
  rewrite (@derive_filename_from_url simple_runtime cat_url (lit "text/html")
             (lit "/cat.png") (initial silent_world)).
  - reflexivity.
  - reflexivity.
  - apply (bool_decide_unpack _). by vm_compute.
Defined.

(** ** The download: what reaches the disk *)

(** The events of writing [chunks]: the empty ones are skipped. *)
Definition chunk_writes (filepath : str) (chunks : list bytes) : list event :=
  EvWrite filepath <$> filter (fun c => c <> []) chunks.

Section Download.

Context {rt : Runtime} (w : world).

(** The chunks that arrive before the rest of the stream are appended to
    the open file, the non-empty ones by one [write] each. *)
Lemma write_chunks_app (filepath : str) (chunks : list bytes)
    (tail : list (exn + bytes)) :
  faults w StepWrite = None ->
  forall (input : list (exn + str)) (m : gmap (list N) node) (acc : bytes)
         (t : list event),
  write_chunks w filepath ((inr <$> chunks) ++ tail)
    {| stdin := input; fs := <[filepath := File acc]> m; trace := t |}
  = write_chunks w filepath tail
      {| stdin := input;
         fs := <[filepath := File (acc ++ concat chunks)]> m;
         trace := t ++ chunk_writes filepath chunks |}.
Proof.
  intros Hw. unfold chunk_writes.
  induction chunks as [|chunk chunks IH]; intros input m acc t; simpl.
  - by rewrite !app_nil_r.
  - unfold bind. case_bool_decide as Hc.
    + subst chunk. cbn [ret]. rewrite IH. simpl.
      rewrite filter_cons_False by (by intros ?). done.
    + unfold write. rewrite Hw. unfold bind, emit, set_fs. cbn [stdin fs trace].
      rewrite alter_insert_eq, IH.
      rewrite filter_cons_True by done. simpl.
      by rewrite <- !app_assoc.
Qed.

(** [save] up to the point its stream has delivered [chunks]. *)
Lemma save_stream (r : response) (filepath : str) (chunks : list bytes)
    (tail : list (exn + bytes)) (s : state) :
  faults w StepOpen = None ->
  faults w StepWrite = None ->
  fs s !! filepath <> Some Dir ->
  body r = (inr <$> chunks) ++ tail ->
  save w r filepath s
  = write_chunks w filepath tail
      {| stdin := stdin s;
         fs := <[filepath := File (concat chunks)]> (fs s);
         trace := trace s ++ EvOpen filepath (present (fs s !! filepath))
                               :: chunk_writes filepath chunks |}.
Proof.
  intros Ho Hw Hdir Hbody. unfold save, open_wb, bind. rewrite Ho, Hbody.
  destruct (fs s !! filepath) as [[|c]|] eqn:Hfp; [done| |];
    unfold emit, set_fs; cbn [stdin fs trace present];
    rewrite write_chunks_app by done;
    rewrite ?insert_insert_eq; simpl; by rewrite <- app_assoc.
Qed.

(** X5: when neither [open] nor [write] fails and the stream delivers all
    its chunks, the file holds their concatenation and nothing of what it
    held before; the writes are the non-empty chunks, in order. *)
Theorem save_complete (r : response) (filepath : str) (chunks : list bytes)
    (s : state) :
  faults w StepOpen = None ->
  faults w StepWrite = None ->
  fs s !! filepath <> Some Dir ->
  body r = inr <$> chunks ->
  save w r filepath s
  = (Val tt,
     {| stdin := stdin s;
        fs := <[filepath := File (concat chunks)]> (fs s);
        trace := trace s ++ EvOpen filepath (present (fs s !! filepath))
                              :: chunk_writes filepath chunks |}).
Proof.
  intros Ho Hw Hdir Hbody.
  rewrite (save_stream r filepath chunks [] s); try done.
  by rewrite app_nil_r.
Qed.

(** X6: when the stream breaks off with the exception [e] after some
    chunks, [save] raises [e] and the file stays, holding the chunks that
    did arrive: nothing removes a partial download. *)
Theorem save_interrupted (r : response) (filepath : str) (chunks : list bytes)
    (e : exn) (rest : list (exn + bytes)) (s : state) :
  faults w StepOpen = None ->
  faults w StepWrite = None ->
  fs s !! filepath <> Some Dir ->
  body r = (inr <$> chunks) ++ inl e :: rest ->
  save w r filepath s
  = (Raised e,
     {| stdin := stdin s;
        fs := <[filepath := File (concat chunks)]> (fs s);
        trace := trace s ++ EvOpen filepath (present (fs s !! filepath))
                              :: chunk_writes filepath chunks |}).
Proof.
  intros Ho Hw Hdir Hbody.
  by rewrite (save_stream r filepath chunks (inl e :: rest) s).
Qed.

(** From here on standard output takes every line. *)
Hypothesis Hok : stdout_ok.

(** X7: a download that is not large, whose stream is complete and where
    no library call fails ends normally; the size it prints is the number
    of bytes received, and it warns of a mismatch exactly when the declared
    size is positive and differs from that number. *)
Theorem download_complete (r : response) (filename filepath : str)
    (chunks : list bytes) (file_size : Z) (s : state) :
  declares r file_size ->
  file_size <= 50 * 1024 * 1024 ->
  faults w StepOpen = None ->
  faults w StepWrite = None ->
  faults w StepGetsize = None ->
  fs s !! filepath <> Some Dir ->
  body r = inr <$> chunks ->
  download w r filename filepath s
  = (Val tt,
     {| stdin := stdin s;
        fs := <[filepath := File (concat chunks)]> (fs s);
        trace :=
          trace s
          ++ EvOpen filepath (present (fs s !! filepath))
             :: chunk_writes filepath chunks
          ++ [EvPrint (MsgFetched filename); EvPrint (MsgSavedTo filepath);
              EvPrint (MsgFileSize (Z.of_nat (length (concat chunks))))]
          ++ (if (0 <? file_size) && negb (Z.of_nat (length (concat chunks)) =? file_size)
              then [EvPrint MsgSizeMismatch] else [])
          ++ [EvPrint MsgStrengthened; EvPrint MsgThanks] |}).
Proof.
  intros Hdecl Hsmall Ho Hw Hg Hdir Hbody.
  unfold download, check_size, bind, int_of_header.
  assert (Hsize : int_of_header (headers_get r (lit "content-length")) s
                  = (Val file_size, s)).
  { unfold declares in Hdecl. unfold int_of_header.
    destruct (headers_get r (lit "content-length")); [by rewrite Hdecl|by subst]. }
  unfold int_of_header in Hsize. rewrite Hsize.
  destruct (Z.ltb_spec (50 * 1024 * 1024) file_size) as [?|_]; [lia|].
  cbn [ret]. rewrite (save_stream r filepath chunks [] s) by (by rewrite ?app_nil_r).
  cbn [write_chunks ret].
  unfold report, getsize, bind. rewrite Hg. cbn [fs stdin trace].
  rewrite lookup_insert_eq.
  rewrite !print_ok by done. unfold extend. cbn [fs stdin trace].
  destruct ((0 <? file_size) && negb (_ =? file_size)); unfold ret;
    rewrite ?print_ok by done; unfold extend;
    cbn [fs stdin trace]; rewrite <- ?app_assoc; reflexivity.
Qed.

End Download.

Definition tiny_response : response :=
  {| status_code := 200;
     headers := {[ lit "content-type" := lit "image/png";
                   lit "content-length" := lit "4" ]};
     body := inr <$> [[Byte.x89; Byte.x50]; []; [Byte.x4e]] |}.


Lemma save_complete_witness :
  save (cat_world []) tiny_response (lit "Fetched_Images/cat.png")
    (initial (cat_world []))
  = (Val tt,
     {| stdin := stdin (initial (cat_world []));
        fs := <[lit "Fetched_Images/cat.png" := File [Byte.x89; Byte.x50; Byte.x4e]]>
                (fs (initial (cat_world [])));
        trace := trace (initial (cat_world []))
                 ++ EvOpen (lit "Fetched_Images/cat.png")
                      (present (fs (initial (cat_world []))
                                  !! lit "Fetched_Images/cat.png"))
                    :: chunk_writes (lit "Fetched_Images/cat.png")
                         [[Byte.x89; Byte.x50]; []; [Byte.x4e]] |}).
Proof.
  apply (save_complete (cat_world []) tiny_response
           (lit "Fetched_Images/cat.png") [[Byte.x89; Byte.x50]; []; [Byte.x4e]]
           (initial (cat_world []))).
  - reflexivity.
  - reflexivity.
  - intros H. vm_compute in H. discriminate H.
  - reflexivity.
Defined.

Definition broken_response : response :=
  {| status_code := 200;
     headers := {[ lit "content-type" := lit "image/png" ]};
     body := (inr <$> [[Byte.x89; Byte.x50]]) ++ [inl ChunkedEncodingError] |}.

Lemma save_interrupted_witness :
  save (cat_world []) broken_response (lit "Fetched_Images/cat.png")
    (initial (cat_world []))
  = (Raised ChunkedEncodingError,
     {| stdin := stdin (initial (cat_world []));
        fs := <[lit "Fetched_Images/cat.png" := File [Byte.x89; Byte.x50]]>
                (fs (initial (cat_world [])));
        trace := trace (initial (cat_world []))
                 ++ EvOpen (lit "Fetched_Images/cat.png")
                      (present (fs (initial (cat_world []))
                                  !! lit "Fetched_Images/cat.png"))
                    :: chunk_writes (lit "Fetched_Images/cat.png")
                         [[Byte.x89; Byte.x50]] |}).
Proof.
  apply (save_interrupted (cat_world []) broken_response
           (lit "Fetched_Images/cat.png") [[Byte.x89; Byte.x50]]
           ChunkedEncodingError [] (initial (cat_world []))).
  - reflexivity.
  - reflexivity.
  - intros H. vm_compute in H. discriminate H.
  - reflexivity.
Defined.

Lemma download_complete_witness :
  fst (@download simple_runtime (cat_world []) tiny_response (lit "cat.png")
         (lit "Fetched_Images/cat.png") (initial (cat_world [])))
  = Val tt.
Proof.
  rewrite (@download_complete simple_runtime (cat_world []) simple_stdout_ok
             tiny_response (lit "cat.png") (lit "Fetched_Images/cat.png")
             [[Byte.x89; Byte.x50]; []; [Byte.x4e]] 4 (initial (cat_world []))).
  - reflexivity.
  - by vm_compute.
  - lia.
  - reflexivity.
  - reflexivity.
  - reflexivity.
  - intros H. vm_compute in H. discriminate H.
  - reflexivity.
Defined.

(** ** Names that are safe inside the directory *)

(** A non-empty name without dangerous characters; in particular without
    a slash or a backslash. *)
Definition safe_name (name : str) : Prop :=
  name <> [] /\ forall c, c ∈ name -> c ∉ dangerous_chars.

Lemma sanitize_filename_safe_name (raw : str) :
  raw <> [] -> safe_name (sanitize_filename raw).
Proof.
  intros Hraw. split.
  - intros E. pose proof (sanitize_filename_len_min raw) as H.
    rewrite E in H. destruct raw; [done|]. unfold len in H. simpl in H. lia.
  - intros c Hc. by apply sanitize_filename_chars, replace_dangerous_safe in Hc.
Qed.

Lemma candidate_safe_name (filename : str) (k : nat) :
  safe_name filename ->
  safe_name (candidate (fst (splitext filename)) (snd (splitext filename)) k).
Proof.
  intros [_ Hsafe]. pose proof (splitext_app filename) as Happ.
  destruct (splitext filename) as [base ext]. simpl in *. unfold candidate. split.
  - intros E. apply (f_equal length) in E. rewrite !length_app in E. simpl in E. lia.
  - intros c. rewrite !elem_of_app. intros [Hc|[Hc|[Hc|Hc]]].
    + apply Hsafe. rewrite <- Happ. apply elem_of_app. by left.
    + apply list_elem_of_singleton in Hc as ->.
      unfold dangerous_chars. rewrite !elem_of_cons, elem_of_nil.
      intros ?. repeat match goal with H : _ \/ _ |- _ => destruct H end; done.
    + by eapply uint_digits_safe.
    + apply Hsafe. rewrite <- Happ. apply elem_of_app. by right.
Qed.

Lemma path_join_safe_name (name : str) :
  safe_name name -> path_join Fetched_Images name = Fetched_Images ++ sep :: name.
Proof.
  intros [Hne Hsafe]. rewrite path_join_Fetched_Images.
  destruct name as [|c name]; [done|]. simpl.
  destruct (N.eqb_spec c sep) as [->|_]; [|done].
  exfalso. apply (Hsafe sep); [by left|].
  unfold sep, dangerous_chars. rewrite !elem_of_cons. tauto.
Qed.

(** The two names that every directory gives to itself and to its parent. *)
Definition dot_name (name : str) : Prop := name = lit "." \/ name = lit "..".

Lemma candidate_not_dot (base ext : str) (k : nat) :
  ~ dot_name (candidate base ext k).
Proof.
  assert (Hin : underscore ∈ candidate base ext k).
  { unfold candidate. rewrite !elem_of_app. right. left. by left. }
  intros [E|E]; rewrite E in Hin; vm_compute in Hin;
    repeat (apply elem_of_cons in Hin as [Hin|Hin]; [discriminate Hin|]);
    by apply elem_of_nil in Hin.
Qed.

(** ** Runs of main: what is touched *)

Lemma lstrip_spaces (s : str) : Forall (fun c => isspace c = true) s -> lstrip s = [].
Proof. induction 1 as [|c s Hc _ IH]; simpl; [done|by rewrite Hc]. Qed.

Section Touched.

Context {rt : Runtime} (w : world).

(** The directory is there once [os.makedirs] has returned. *)
Definition with_directory (m : gmap (list N) node) : gmap (list N) node :=
  <[Fetched_Images := Dir]> m.

(** The state in which the request has been sent. *)
Definition after_request (line : str) (rest : list (exn + str)) : state :=
  {| stdin := rest; fs := with_directory (files w);
     trace := [EvPrint MsgWelcome; EvPrint MsgTagline;
               EvInput PromptUrl (inr line); EvMakedirs Fetched_Images;
               EvPrint MsgConnecting; EvGet (strip line)] |}.

(** X11: when the run gets as far as the size check, the output directory
    exists, no other path of the file system has changed, and the target
    path is the chosen name joined to the directory. *)
Theorem prepare_directory (url : str) (s s' : state)
    (r : response) (filename filepath : str) :
  prepare w url s = (Val (r, (filename, filepath)), s') ->
  fs s' !! Fetched_Images = Some Dir
  /\ (forall p, p <> Fetched_Images -> fs s' !! p = fs s !! p)
  /\ filepath = Fetched_Images ++ sep :: filename
  /\ safe_name filename.
Proof.
  destruct s as [input m t]. intros H.
  run_cases H.
  all: try discriminate H.
  all: injection H as <- <- <- <-; cbn [fs stdin trace].
  all: destruct Hraw as (raw & Hne & ->).
  all: pose proof (sanitize_filename_safe_name raw Hne) as Hsafe.
  all: try match goal with
       | Hs : splitext ?f = (_, _), Hk : (1 <= ?k)%nat |- _ =>
           pose proof (candidate_safe_name f k Hsafe) as Hcand;
           rewrite Hs in Hcand; cbn [fst snd] in Hcand
       end.
  all: (split; [by rewrite ?lookup_insert_eq|]);
    (split; [intros p Hp; by rewrite ?lookup_insert_ne|]);
    (split; [by apply path_join_safe_name|assumption]).
Qed.

(** X12: a run opens no file outside the output directory. The entries
    [.] and [..] of the output directory are directories in every file
    system once the directory exists, and [main] looks paths up only after
    [os.makedirs]; a world stands for such a file system when it holds them
    as directories. In such a world the path of every file opened for
    writing is [Fetched_Images/] followed by one path component that names
    an entry of the directory: a non-empty name without slash, backslash or
    any other dangerous character, and neither [.] nor [..]. *)
Theorem opened_path_confined (p : str) (existed : bool) :
  (forall name, dot_name name ->
     files w !! path_join Fetched_Images name = Some Dir) ->
  EvOpen p existed ∈ trace (snd (run w)) ->
  exists name,
    p = Fetched_Images ++ sep :: name
    /\ safe_name name
    /\ ~ dot_name name.
Proof.
  intros Hdots.
  destruct (run w) as [o s] eqn:H. unfold run in H. simpl. intros Hin.
  run_cases H.
  all: leaf H.
  all: mem_cases Hin.
  all: injection Hin as -> ->.
  all: destruct Hraw as (raw & Hne & ->).
  all: pose proof (sanitize_filename_safe_name raw Hne) as Hsafe.
  all: try match goal with
       | Hs : splitext ?f = (_, _), Hk : (1 <= ?k)%nat |- _ =>
           pose proof (candidate_safe_name f k Hsafe) as Hcand;
           pose proof (candidate_not_dot (fst (splitext f)) (snd (splitext f)) k)
             as Hnodot;
           rewrite Hs in Hcand, Hnodot; cbn [fst snd] in Hcand, Hnodot
       end.
  all: eexists; (split; [by apply path_join_safe_name|]); (split; [assumption|]).
  all: try assumption.
  all: fix_lookup.
  all: intros Hdot; apply Hdots in Hdot; congruence.
Qed.

End Touched.

(** ** Runs of main: what is reported *)

Section Reported.

Context {rt : Runtime} (w : world).

(** Standard output takes every line. *)
Hypothesis Hok : stdout_ok.

(** X8: a URL line that is empty or all white space ends the run at once:
    [main] prints its two greetings and the no-URL line and returns; it
    creates no directory and makes no request. *)
Theorem blank_url_returns (line : str) (rest : list (exn + str)) :
  console w = inr line :: rest ->
  Forall (fun c => isspace c = true) line ->
  run w
  = (Returned,
     {| stdin := rest; fs := files w;
        trace := [EvPrint MsgWelcome; EvPrint MsgTagline;
                  EvInput PromptUrl (inr line); EvPrint MsgNoUrl] |}).
Proof.
  intros Hc Hsp. rewrite (run_top w Hok), Hc.
  assert (strip line = []) as ->.
  { unfold strip. rewrite (lstrip_spaces line) by done. reflexivity. }
  reflexivity.
Qed.

(** X9: a response with an error status (400 to 599) ends the run in the
    clause for HTTP errors: with the directory in place and the request
    sent, [main] prints the two lines of that clause and ends normally; no
    file is opened. *)
Theorem http_error_reported (r : response) (line : str) (rest : list (exn + str)) :
  console w = inr line :: rest ->
  strip line <> [] ->
  faults w StepMakedirs = None ->
  (forall c, files w !! Fetched_Images <> Some (File c)) ->
  get_result w = inr r ->
  400 <= status_code r < 600 ->
  run w = (Val tt, extend (after_request w line rest) (with_directory (files w))
                     [EvPrint (MsgHTTPError HTTPError); EvPrint MsgWisdomHTTP]).
Proof.
  intros Hc Hs Hmk Hdir Hget Hst.
  assert (Hst' : (400 <=? status_code r) && (status_code r <? 600) = true).
  { apply andb_true_iff. split; [apply Z.leb_le|apply Z.ltb_lt]; lia. }
  apply (bool_decide_eq_false_2 _) in Hs.
  destruct (run w) as [o s] eqn:H. unfold run in H.
  run_cases H.
  all: try (exfalso; eapply Hdir; reflexivity).
  all: try discriminate.
  all: leaf H.
  all: unfold extend, after_request, with_directory; cbn [fs stdin trace app].
  all: try match goal with
       | Hf : files w !! Fetched_Images = Some Dir |- _ =>
           rewrite (insert_id _ _ _ Hf)
       end.
  all: reflexivity.
Qed.

(** X10: when the request itself fails with an exception deriving from
    [Exception], the run ends in the first clause that matches it: the
    directory is in place, the clause's two lines are printed, [main] ends
    normally and no file is opened. *)
Theorem request_failure_reported (e : exn) (line : str) (rest : list (exn + str)) :
  console w = inr line :: rest ->
  strip line <> [] ->
  faults w StepMakedirs = None ->
  (forall c, files w !! Fetched_Images <> Some (File c)) ->
  get_result w = inl e ->
  is_Exception e = true ->
  run w = (Val tt, extend (after_request w line rest) (with_directory (files w))
                     (handler_prints e)).
Proof.
  intros Hc Hs Hmk Hdir Hget He.
  apply (bool_decide_eq_false_2 _) in Hs.
  destruct (run w) as [o s] eqn:H. unfold run in H.
  run_cases H.
  all: try (exfalso; eapply Hdir; reflexivity).
  all: try discriminate.
  all: leaf H.
  all: unfold extend, after_request, with_directory; cbn [fs stdin trace app].
  all: try match goal with
       | Hf : files w !! Fetched_Images = Some Dir |- _ =>
           rewrite (insert_id _ _ _ Hf)
       end.
  all: reflexivity.
Qed.

End Reported.


Lemma blank_url_returns_witness :
  @run simple_runtime
    {| console := [inr (lit "  "); inr cat_url]; files := ∅;
       get_result := inr png_response; faults := fun _ => None;
       dir_size := 4096 |}
  = (Returned,
     {| stdin := [inr cat_url]; fs := ∅;
        trace := [EvPrint MsgWelcome; EvPrint MsgTagline;
                  EvInput PromptUrl (inr (lit "  ")); EvPrint MsgNoUrl] |}).
Proof.
  apply (@blank_url_returns simple_runtime
           {| console := [inr (lit "  "); inr cat_url]; files := ∅;
              get_result := inr png_response; faults := fun _ => None;
              dir_size := 4096 |} simple_stdout_ok (lit "  ") [inr cat_url]).
  - reflexivity.
  - repeat constructor.
Defined.

Lemma http_error_reported_witness :
  fst (@run simple_runtime (bad_length_world 404)) = Val tt.
Proof.
  rewrite (@http_error_reported simple_runtime (bad_length_world 404)
             simple_stdout_ok
             (plain_response 404 (lit "image/png") (lit "abc")) cat_url []).
  - reflexivity.
  - reflexivity.
  - by vm_compute.
  - reflexivity.
  - intros c H. vm_compute in H. discriminate H.
  - reflexivity.
  - simpl. lia.
Defined.

Lemma request_failure_reported_witness :
  fst (@run simple_runtime offline_world) = Val tt.
Proof.
  rewrite (@request_failure_reported simple_runtime offline_world
             simple_stdout_ok ConnectionError cat_url []).
  - reflexivity.
  - reflexivity.
  - by vm_compute.
  - reflexivity.
  - intros c H. vm_compute in H. discriminate H.
  - reflexivity.
  - reflexivity.
Defined.

Lemma prepare_directory_witness :
  lit "Fetched_Images/cat_1.png" = Fetched_Images ++ sep :: lit "cat_1.png"
  /\ safe_name (lit "cat_1.png").
Proof.
  apply (@prepare_directory simple_runtime (cat_world [inr (lit "n")]) cat_url
           (after_url_read (cat_world [inr (lit "n")]) cat_url [inr (lit "n")])
           (snd (@prepare simple_runtime (cat_world [inr (lit "n")]) cat_url
                   (after_url_read (cat_world [inr (lit "n")]) cat_url
                      [inr (lit "n")])))
           png_response (lit "cat_1.png") (lit "Fetched_Images/cat_1.png")).
  by vm_compute.
Defined.

(** [Fetched_Images] with its entries [.] and [..] and the file
    [cat.png]; the server answers with a PNG. *)
Definition dotted_world (answers : list (exn + str)) : world :=
  {| console := inr cat_url :: answers;
     files := {[ lit "Fetched_Images" := Dir;
                 lit "Fetched_Images/." := Dir;
                 lit "Fetched_Images/.." := Dir;
                 lit "Fetched_Images/cat.png" := File [Byte.x00] ]};
     get_result := inr png_response;
     faults := fun _ => None;
     dir_size := 4096 |}.

Lemma opened_path_confined_witness :
  exists name,
    lit "Fetched_Images/cat_1.png" = Fetched_Images ++ sep :: name
    /\ safe_name name
    /\ ~ dot_name name.
Proof.
  apply (@opened_path_confined simple_runtime (dotted_world [inr (lit "n")])
           (lit "Fetched_Images/cat_1.png") false).
  - intros name [->| ->]; reflexivity.
  - vm_compute. mem_goal.
Defined.

(** * The helpers that main does not call *)

(** One constructor per [print] call of the four helpers. *)
Inductive helper_message :=
  | MsgBatchTitle | MsgBatchHelp | MsgNoUrls
  | MsgProcessing (n : nat)
  | MsgItem (i n : nat) (url : str)
  | MsgBatchComplete (successful n : nat)
  | MsgAlreadyExists (name : str)
  | MsgHeadersTitle
  | MsgHeader (description value : str).

(** ** handle_multiple_urls *)

(** Lines 150-154: the [while True] loop. Each round consumes one console
    item, so the loop is a recursion on the console. *)
Fixpoint read_urls (console : list (exn + str)) (urls : list str)
    : (exn + list str) * list (exn + str) :=
  match console with
  | [] => (inl EOFError, [])
  | inl e :: rest => (inl e, rest)
  | inr line :: rest =>
      let url := strip line in
      if bool_decide (url = []) then (inr urls, rest)
      else read_urls rest (urls ++ [url])
  end.

(** Lines 163-166: the [for i, url in enumerate(urls, 1)] loop; its body
    prints and leaves [successful] alone. *)
Fixpoint process_urls (i n : nat) (urls : list str) (successful : nat)
    : list helper_message * nat :=
  match urls with
  | [] => ([], successful)
  | url :: rest =>
      let '(out, successful) := process_urls (S i) n rest successful in
      (MsgItem i n url :: out, successful)
  end.

(** The result, what is printed, and what is left of the console. *)
Definition handle_multiple_urls (console : list (exn + str))
    : outcome unit * list helper_message * list (exn + str) :=
  let out := [MsgBatchTitle; MsgBatchHelp] in
  match read_urls console [] with
  | (inl e, rest) => (Raised e, out, rest)
  | (inr urls, rest) =>
      if bool_decide (urls = []) then (Returned, out ++ [MsgNoUrls], rest)
      else
        let out := out ++ [MsgProcessing (length urls)] in
        let successful := O in
        let '(items, successful) := process_urls 1 (length urls) urls successful in
        (Val tt, out ++ items ++ [MsgBatchComplete successful (length urls)], rest)
  end.

(** ** check_file_safety *)

Inductive safety_check :=
  | LargeFile (file_size : Z)
  | UnexpectedContentType (content_type : str)
  | SuspiciousDomain (domain : str).

Definition suspicious_domains : list str := [lit "suspicious.com"; lit "malware.net"].

(** [sub in s] for strings. *)
Fixpoint is_substring (sub s : str) : bool :=
  startswith s sub
  || match s with
     | [] => false
     | _ :: t => is_substring sub t
     end.

Section Safety.

Context {rt : Runtime}.

(** [urlparse(url).netloc], [None] when [urlparse] raises [ValueError]. *)
Variable urlparse_netloc : str -> option str.

(** Lines 170-190. The domain is lowered with [lower], exact for a netloc
    within U+0000..U+00FF. *)
Definition check_file_safety (url : str) (r : response) : exn + list safety_check :=
  let safety_checks := [] in
  match (match headers_get r (lit "content-length") with
         | None => Some 0
         | Some v => py_int v
         end) with
  | None => inl ValueError
  | Some file_size =>
      let safety_checks :=
        if 100 * 1024 * 1024 <? file_size
        then safety_checks ++ [LargeFile file_size] else safety_checks in
      let content_type := default [] (headers_get r (lit "content-type")) in
      let safety_checks :=
        if negb (startswith content_type (lit "image/"))
        then safety_checks ++ [UnexpectedContentType content_type]
        else safety_checks in
      match urlparse_netloc url with
      | None => inl ValueError
      | Some netloc =>
          let domain := lower netloc in
          let safety_checks :=
            if existsb (fun sus => is_substring sus domain) suspicious_domains
            then safety_checks ++ [SuspiciousDomain domain]
            else safety_checks in
          inr safety_checks
      end
  end.

End Safety.

(** ** prevent_duplicates *)

(** Lines 192-202: the answer and what is printed. *)
Definition prevent_duplicates (m : gmap (list N) node) (filepath : str)
    : bool * list helper_message :=
  if negb (present (m !! filepath)) then (false, [])
  else (true, [MsgAlreadyExists (basename filepath)]).

(** ** check_important_headers *)

(** The items of the dictionary literal, in its order. *)
Definition important_headers : list (str * str) :=
  [ (lit "content-length", lit "File size");
    (lit "content-type", lit "Content type");
    (lit "last-modified", lit "Last modified");
    (lit "server", lit "Server info");
    (lit "content-encoding", lit "Encoding");
    (lit "cache-control", lit "Cache policy") ].

(** Lines 215-219: what is printed. [if value] holds for a header that is
    present and not empty. *)
Definition check_important_headers (r : response) : list helper_message :=
  fold_left
    (fun out item =>
       match headers_get r (fst item) with
       | Some (c :: value) => out ++ [MsgHeader (snd item) (c :: value)]
       | _ => out
       end)
    important_headers [MsgHeadersTitle].

(** ** Properties of the helpers *)

Lemma read_urls_lines (lines : list str) (tail : list (exn + str)) (urls : list str) :
  Forall (fun line => strip line <> []) lines ->
  read_urls ((inr <$> lines) ++ tail) urls
  = read_urls tail (urls ++ (strip <$> lines)).
Proof.
  intros Hlines. revert urls.
  induction Hlines as [|line lines Hline _ IH]; intros urls; simpl.
  - by rewrite app_nil_r.
  - rewrite (bool_decide_eq_false_2 _ Hline), IH. by rewrite <- app_assoc.
Qed.

Lemma process_urls_imap (i n : nat) (urls : list str) (successful : nat) :
  process_urls i n urls successful
  = (imap (fun j url => MsgItem (i + j) n url) urls, successful).
Proof.
  revert i. induction urls as [|url urls IH]; intros i; simpl; [done|].
  rewrite IH. rewrite Nat.add_0_r. do 2 f_equal.
  apply imap_ext. intros j x _. simpl. f_equal. lia.
Qed.

(** X13: batch mode downloads nothing. When non-blank lines are followed
    by a blank one, it prints one line per URL, numbered from 1 in the
    order read and holding the stripped URL, and then reports 0 successful
    downloads out of their number, whatever that number is; the console is
    left after the blank line. A blank first line gives the no-URLs line
    and a return. *)
Theorem batch_counts_no_download (lines : list str) (blank : str)
    (rest : list (exn + str)) :
  Forall (fun line => strip line <> []) lines ->
  strip blank = [] ->
  handle_multiple_urls ((inr <$> lines) ++ inr blank :: rest)
  = if bool_decide (lines = []) then
      (Returned, [MsgBatchTitle; MsgBatchHelp; MsgNoUrls], rest)
    else
      (Val tt,
       [MsgBatchTitle; MsgBatchHelp; MsgProcessing (length lines)]
       ++ imap (fun j line => MsgItem (S j) (length lines) (strip line)) lines
       ++ [MsgBatchComplete 0 (length lines)],
       rest).
Proof.
  intros Hlines Hblank. unfold handle_multiple_urls.
  rewrite read_urls_lines by done. cbn [read_urls app]. rewrite Hblank.
  rewrite (bool_decide_eq_true_2 ([] = [])) by done.
  destruct (decide (lines = [])) as [->|Hl]; [done|].
  rewrite (bool_decide_eq_false_2 (lines = [])) by done.
  rewrite bool_decide_eq_false_2 by (by intros E%fmap_nil_inv).
  rewrite process_urls_imap, length_fmap, imap_fmap. reflexivity.
Qed.

Lemma batch_counts_no_download_witness :
  handle_multiple_urls
    ((inr <$> [lit " a "; lit "b"]) ++ inr (lit "  ") :: [inr (lit "c")])
  = (Val tt,
     [MsgBatchTitle; MsgBatchHelp; MsgProcessing 2; MsgItem 1 2 (lit "a");
      MsgItem 2 2 (lit "b"); MsgBatchComplete 0 2],
     [inr (lit "c")]).
Proof.
  rewrite (batch_counts_no_download [lit " a "; lit "b"] (lit "  ") [inr (lit "c")]).
  - reflexivity.
  - repeat constructor; by vm_compute.
  - reflexivity.
Defined.

(** X14: batch mode has no [try]: when the console ends, or a read raises,
    before a blank line was entered, the exception leaves the function;
    the URLs read so far are dropped and nothing but the two title lines
    has been printed. *)
Theorem batch_input_error (lines : list str) (tail : list (exn + str)) :
  Forall (fun line => strip line <> []) lines ->
  match tail with [] | inl _ :: _ => True | inr _ :: _ => False end ->
  handle_multiple_urls ((inr <$> lines) ++ tail)
  = (Raised (match tail with inl e :: _ => e | _ => EOFError end),
     [MsgBatchTitle; MsgBatchHelp],
     match tail with _ :: rest => rest | [] => [] end).
Proof.
  intros Hlines Htail. unfold handle_multiple_urls.
  rewrite read_urls_lines by done.
  by destruct tail as [|[e|line] rest].
Qed.

Lemma batch_input_error_witness :
  handle_multiple_urls ((inr <$> [lit "a"; lit "b"]) ++ [])
  = (Raised EOFError, [MsgBatchTitle; MsgBatchHelp], []).
Proof.
  apply (batch_input_error [lit "a"; lit "b"] []).
  - repeat constructor; by vm_compute.
  - exact I.
Defined.

Lemma is_substring_app (sub pre post : str) :
  is_substring sub (pre ++ sub ++ post) = true.
Proof.
  induction pre as [|c pre IH]; simpl.
  - assert (H : startswith (sub ++ post) sub = true).
    { induction sub as [|x sub IHs]; simpl; [done|]. by rewrite N.eqb_refl. }
    destruct (sub ++ post); simpl in *; by rewrite H.
  - rewrite IH. apply orb_true_r.
Qed.

Lemma existsb_false_Forall {A} (f : A -> bool) (l : list A) :
  existsb f l = false <-> Forall (fun x => f x = false) l.
Proof.
  induction l as [|x l IH]; simpl; [by split|].
  rewrite orb_false_iff, Forall_cons, IH. done.
Qed.

Section SafetyProperties.

Context {rt : Runtime} (urlparse_netloc : str -> option str).

(** The answer of the safety checker, check by check. *)
Lemma check_file_safety_checks (url : str) (r : response)
    (checks : list safety_check) :
  check_file_safety urlparse_netloc url r = inr checks ->
  exists file_size netloc,
    declares r file_size
    /\ urlparse_netloc url = Some netloc
    /\ checks
       = (if 100 * 1024 * 1024 <? file_size then [LargeFile file_size] else [])
         ++ (if startswith (default [] (headers_get r (lit "content-type")))
                  (lit "image/")
             then []
             else [UnexpectedContentType
                     (default [] (headers_get r (lit "content-type")))])
         ++ (if existsb (fun sus => is_substring sus (lower netloc))
                  suspicious_domains
             then [SuspiciousDomain (lower netloc)] else []).
Proof.
  assert (Hinj : forall a b : list safety_check, @inr exn _ a = inr b -> a = b)
    by (by intros ?? [=]).
  unfold check_file_safety, declares. intros H.
  destruct (headers_get r (lit "content-length")) as [v|] eqn:Hcl.
  - destruct (py_int v) as [file_size|] eqn:Hint; [|discriminate H].
    destruct (urlparse_netloc url) as [netloc|] eqn:Hnet; [|discriminate H].
    exists file_size, netloc. split; [done|]. split; [done|].
    apply Hinj in H. subst checks.
    destruct (100 * 1024 * 1024 <? file_size);
      destruct (startswith _ (lit "image/"));
      destruct (existsb _ suspicious_domains); reflexivity.
  - destruct (urlparse_netloc url) as [netloc|] eqn:Hnet; [|discriminate H].
    exists 0, netloc. split; [done|]. split; [done|].
    apply Hinj in H. subst checks.
    change (100 * 1024 * 1024 <? 0) with false. cbv iota.
    destruct (startswith _ (lit "image/"));
      destruct (existsb _ suspicious_domains); reflexivity.
Qed.

(** X15: the safety checker answers with at most three warnings, in the
    order size, content type, domain; it answers with none exactly when
    the declared size is at most 100 MiB, the content type starts with
    [image/] and no listed name occurs in the lower-cased host. *)
Theorem safety_checks_shape (url : str) (r : response) (checks : list safety_check) :
  check_file_safety urlparse_netloc url r = inr checks ->
  exists file_size netloc,
    declares r file_size
    /\ urlparse_netloc url = Some netloc
    /\ sublist checks
         [LargeFile file_size;
          UnexpectedContentType (default [] (headers_get r (lit "content-type")));
          SuspiciousDomain (lower netloc)]
    /\ (checks = []
        <-> file_size <= 100 * 1024 * 1024
            /\ startswith (default [] (headers_get r (lit "content-type")))
                 (lit "image/") = true
            /\ Forall (fun sus => is_substring sus (lower netloc) = false)
                 suspicious_domains).
Proof.
  intros H. apply check_file_safety_checks in H as (file_size & netloc & Hd & Hn & ->).
  exists file_size, netloc. split; [done|]. split; [done|].
  rewrite <- existsb_false_Forall.
  destruct (Z.ltb_spec (100 * 1024 * 1024) file_size);
    destruct (startswith _ (lit "image/"));
    destruct (existsb _ suspicious_domains); simpl;
    (split; [repeat constructor|]);
    (split; [try discriminate; intros _; repeat split; try done; lia
            |intros (? & ? & ?); try done; lia]).
Qed.

(** X16: the two size checks disagree between 50 and 100 MiB: for a
    declared size above 50 MiB and at most 100 MiB, [main] warns and asks
    whether to continue (the warning being a line that standard output
    takes), while the safety checker gives no size warning. *)
Theorem size_checks_disagree (r : response) (file_size : Z) (s : state) :
  declares r file_size ->
  50 * 1024 * 1024 < file_size <= 100 * 1024 * 1024 ->
  (print_raises (trace s) (MsgLargeFile file_size) = None ->
   exists answer rest,
      trace (snd (check_size r s))
      = trace s ++ EvPrint (MsgLargeFile file_size)
                   :: EvInput PromptContinueDownload answer :: rest)
  /\ (forall url checks size,
        check_file_safety urlparse_netloc url r = inr checks ->
        LargeFile size ∉ checks).
Proof.
  intros Hd Hsize. split.
  - intros Hprint. unfold check_size, bind, int_of_header. unfold declares in Hd.
    assert (Hs : match headers_get r (lit "content-length") with
                 | Some v => match py_int v with
                             | Some z => ret z
                             | None => raise ValueError
                             end
                 | None => ret 0
                 end s = (Val file_size, s)).
    { destruct (headers_get r (lit "content-length")); [by rewrite Hd|by subst]. }
    rewrite Hs.
    destruct (Z.ltb_spec (50 * 1024 * 1024) file_size) as [_|?]; [|lia].
    unfold print, emit, input, return_, ret. cbn [stdin fs trace]. rewrite Hprint.
    destruct (stdin s) as [|[e|line] rest]; cbn [stdin fs trace];
      [| |destruct (negb (str_eqb _ _)); cbn [stdin fs trace snd];
          [destruct (print_raises _ MsgCancelledLarge); cbn [stdin fs trace snd]|]];
      rewrite <- ?app_assoc; simpl; by eexists _, _.
  - intros url checks size H.
    apply check_file_safety_checks in H as (z & netloc & Hz & _ & ->).
    assert (z = file_size) as ->.
    { unfold declares in *. destruct (headers_get r _); congruence. }
    destruct (Z.ltb_spec (100 * 1024 * 1024) file_size) as [?|_]; [lia|].
    destruct (startswith _ _), (existsb _ _); simpl;
      rewrite ?elem_of_cons, ?elem_of_nil; intuition discriminate.
Qed.

(** X17: the domain check is a substring test on the lower-cased host: a
    host in which a listed name occurs anywhere, in any case, is reported,
    with the lower-cased host in the warning. *)
Theorem suspicious_substring_flagged (url : str) (r : response)
    (netloc sus pre post : str) (checks : list safety_check) :
  urlparse_netloc url = Some netloc ->
  sus ∈ suspicious_domains ->
  lower netloc = pre ++ sus ++ post ->
  check_file_safety urlparse_netloc url r = inr checks ->
  SuspiciousDomain (lower netloc) ∈ checks.
Proof.
  intros Hn Hsus Hlow H.
  apply check_file_safety_checks in H as (z & netloc' & _ & Hn' & ->).
  rewrite Hn in Hn'. injection Hn' as <-.
  assert (existsb (fun sus => is_substring sus (lower netloc)) suspicious_domains
          = true) as ->.
  { apply existsb_exists. exists sus. split; [by apply list_elem_of_In|].
    rewrite Hlow. apply is_substring_app. }
  rewrite !elem_of_app. right. right. by left.
Qed.

End SafetyProperties.

Definition big_response : response :=
  {| status_code := 200;
     headers := {[ lit "content-type" := lit "text/html";
                   lit "content-length" := lit "62914560" ]};
     body := [] |}.

Definition host_of (netloc : str) : str -> option str := fun _ => Some netloc.

Lemma safety_checks_shape_witness :
  exists file_size netloc,
    @declares simple_runtime big_response file_size
    /\ host_of (lit "Files.Malware.NET") cat_url = Some netloc
    /\ sublist [UnexpectedContentType (lit "text/html");
                SuspiciousDomain (lit "files.malware.net")]
         [LargeFile file_size;
          UnexpectedContentType
            (default [] (headers_get big_response (lit "content-type")));
          SuspiciousDomain (lower netloc)]
    /\ ([UnexpectedContentType (lit "text/html");
         SuspiciousDomain (lit "files.malware.net")] = []
        <-> file_size <= 100 * 1024 * 1024
            /\ startswith (default [] (headers_get big_response (lit "content-type")))
                 (lit "image/") = true
            /\ Forall (fun sus => is_substring sus (lower netloc) = false)
                 suspicious_domains).
Proof.
  apply (@safety_checks_shape simple_runtime (host_of (lit "Files.Malware.NET"))
           cat_url big_response).
  by vm_compute.
Defined.

Lemma size_checks_disagree_witness :
  (exists answer rest,
      trace (snd (@check_size simple_runtime big_response (initial silent_world)))
      = trace (initial silent_world)
        ++ EvPrint (MsgLargeFile 62914560)
           :: EvInput PromptContinueDownload answer :: rest)
  /\ (forall url checks size,
        @check_file_safety simple_runtime (host_of (lit "example.com")) url
          big_response = inr checks ->
        LargeFile size ∉ checks).
Proof.
  destruct (@size_checks_disagree simple_runtime (host_of (lit "example.com"))
              big_response 62914560 (initial silent_world)) as [Hmain Hsafe].
  - by vm_compute.
  - lia.
  - split; [apply Hmain; reflexivity|exact Hsafe].
Defined.

Lemma suspicious_substring_flagged_witness :
  SuspiciousDomain (lower (lit "Files.Malware.NET:8080"))
    ∈ [UnexpectedContentType (lit "text/html");
       SuspiciousDomain (lit "files.malware.net:8080")].
Proof.
  apply (@suspicious_substring_flagged simple_runtime
           (host_of (lit "Files.Malware.NET:8080")) cat_url big_response
           (lit "Files.Malware.NET:8080") (lit "malware.net") (lit "files.")
           (lit ":8080")).
  - reflexivity.
  - apply (bool_decide_unpack _). by vm_compute.
  - by vm_compute.
  - by vm_compute.
Defined.

(** ** check_important_headers and prevent_duplicates *)

(** The line printed for one item of the table, if any. *)
Definition header_line (r : response) (item : str * str) : option helper_message :=
  match headers_get r (fst item) with
  | Some (c :: value) => Some (MsgHeader (snd item) (c :: value))
  | _ => None
  end.

Lemma header_loop (r : response) (items : list (str * str))
    (out : list helper_message) :
  fold_left
    (fun out item =>
       match headers_get r (fst item) with
       | Some (c :: value) => out ++ [MsgHeader (snd item) (c :: value)]
       | _ => out
       end) items out
  = out ++ omap (header_line r) items.
Proof.
  revert out. induction items as [|item items IH]; intros out; simpl.
  - by rewrite app_nil_r.
  - rewrite IH. unfold header_line at 2.
    destruct (headers_get r item.1) as [[|c value]|]; simpl; try done.
    by rewrite <- app_assoc.
Qed.

Lemma length_omap_le {A B} (f : A -> option B) (l : list A) :
  (length (omap f l) <= length l)%nat.
Proof. induction l as [|x l IH]; csimpl; [done|]. destruct (f x); csimpl; lia. Qed.

(** X18: the header report prints its title and then one line for each
    of the six listed headers that the response carries with a non-empty
    value, in the order of the list and with the list's description: at
    most six lines, none for any other header, and no exception. *)
Theorem important_headers_printed (r : response) :
  check_important_headers r
  = MsgHeadersTitle :: omap (header_line r) important_headers
  /\ (length (check_important_headers r) <= 7)%nat
  /\ (forall description value,
        MsgHeader description value ∈ check_important_headers r
        <-> value <> []
            /\ exists header, (header, description) ∈ important_headers
                 /\ headers_get r header = Some value).
Proof.
  assert (Heq : check_important_headers r
                = MsgHeadersTitle :: omap (header_line r) important_headers).
  { unfold check_important_headers. by rewrite header_loop. }
  split; [done|]. rewrite Heq. split.
  - pose proof (length_omap_le (header_line r) important_headers) as H.
    simpl in *. lia.
  - intros description value. rewrite elem_of_cons, list_elem_of_omap. split.
    + intros [[=]|([header d] & Hin & Hline)]. unfold header_line in Hline.
      simpl in Hline.
      destruct (headers_get r header) as [[|c v]|] eqn:Hh; try done.
      injection Hline as <- <-. split; [done|]. by exists header.
    + intros (Hne & header & Hin & Hh). right. exists (header, description).
      split; [done|]. unfold header_line. simpl. rewrite Hh.
      by destruct value.
Qed.

Lemma rfind_from_app (c : char) (a b : str) (i acc : Z) :
  rfind_from c (a ++ b) i acc
  = rfind_from c b (i + len a) (rfind_from c a i acc).
Proof.
  revert i acc. induction a as [|x a IH]; intros i acc; simpl.
  - unfold len. simpl. by rewrite Z.add_0_r.
  - rewrite IH. f_equal. unfold len. simpl length. lia.
Qed.

Lemma rfind_from_head (c : char) (s : str) (i acc : Z) :
  c ∉ s -> rfind_from c (c :: s) i acc = i.
Proof. intros H. simpl. rewrite N.eqb_refl. by apply rfind_from_absent. Qed.

(** Joining a safe name to the directory and taking the base name gives
    the name back. *)
Lemma basename_path_join (name : str) :
  safe_name name -> basename (path_join Fetched_Images name) = name.
Proof.
  intros Hsafe. rewrite path_join_safe_name by done.
  assert (Hsep : sep ∉ name).
  { intros Hin. destruct Hsafe as [_ Hsafe]. apply (Hsafe sep Hin).
    unfold sep, dangerous_chars. rewrite !elem_of_cons. tauto. }
  unfold basename, rfind. rewrite rfind_from_app, rfind_from_head by done.
  unfold slice_from, slice_bound.
  assert (Hlen : len (Fetched_Images ++ sep :: name) = len Fetched_Images + 1 + len name).
  { unfold len. rewrite length_app. simpl. lia. }
  pose proof (len_nonneg name). pose proof (len_nonneg Fetched_Images).
  destruct (Z.ltb_spec (0 + len Fetched_Images + 1) 0) as [?|_]; [lia|].
  rewrite Hlen, Z.min_l by lia.
  replace (Z.to_nat (0 + len Fetched_Images + 1))
    with (length (Fetched_Images ++ [sep])).
  - rewrite (cons_middle sep Fetched_Images name), (app_assoc Fetched_Images).
    apply drop_app_length.
  - unfold len. rewrite length_app. simpl. lia.
Qed.

Section Duplicates.

Context {rt : Runtime}.

(** X19: the duplicate helper agrees with the duplicate test of [main]:
    it answers [True] for exactly the paths for which [main] prints that
    the file exists (that line being one that standard output takes) and
    asks whether to overwrite; for a target of [main] it names the file by
    the name [main] chose; it prints nothing when the path is free. *)
Theorem prevent_duplicates_agrees (s : state) (filename filepath : str) :
  (print_raises (trace s) (MsgExists filename) = None ->
   (fst (prevent_duplicates (fs s) filepath) = true
    <-> exists rest,
          trace (snd (resolve_duplicate filename filepath s))
          = trace s ++ EvPrint (MsgExists filename) :: rest))
  /\ (fst (prevent_duplicates (fs s) filepath) = false ->
      snd (prevent_duplicates (fs s) filepath) = [])
  /\ (safe_name filename ->
      fst (prevent_duplicates (fs s) (path_join Fetched_Images filename)) = true ->
      snd (prevent_duplicates (fs s) (path_join Fetched_Images filename))
      = [MsgAlreadyExists filename]).
Proof.
  split; [|split].
  - destruct s as [input m t]. unfold prevent_duplicates. cbn [fs trace].
    intros Hprint.
    destruct (resolve_duplicate filename filepath _) as [o s'] eqn:H.
    run_cases H.
    all: injection H as <- <-; cbn [snd trace negb fst].
    all: split; [try done; intros _; rewrite <- ?app_assoc; by eexists|].
    all: try done.
    all: intros [rest H]; apply (f_equal length) in H;
      rewrite length_app in H; simpl in H; lia.
  - unfold prevent_duplicates. by destruct (fs s !! filepath).
  - intros Hsafe. unfold prevent_duplicates.
    destruct (fs s !! path_join Fetched_Images filename); simpl; [|done].
    intros _. by rewrite basename_path_join.
Qed.

End Duplicates.

Lemma prevent_duplicates_agrees_witness :
  snd (prevent_duplicates (fs (initial (cat_world [])))
         (path_join Fetched_Images (lit "cat.png")))
  = [MsgAlreadyExists (lit "cat.png")].
Proof.
  apply (@prevent_duplicates_agrees simple_runtime
           (initial (cat_world [])) (lit "cat.png") (lit "Fetched_Images/cat.png")).
  - split; [by vm_compute|].
    apply Forall_forall, (bool_decide_unpack _). by vm_compute.
  - by vm_compute.
Defined.
